(** * ParameterLib: a typed layer over [getopt_long]

    Shallow embedding of [ParmeterLib.h] (namespace [plib]) and of the option
    table of [main.cpp], followed by the properties of the conversion layer
    and of the dispatcher [processOptions].

    Conventions.
    - A C [char] is an [ascii] (eight bits), a C string or [std::string] a
      [string]; a [char*] that may be null is an [option string].
    - An [int] is a [Z]; where the code computes on it the 32-bit result is
      written out with [wrap_int].
    - A call that may throw returns an [outcome]; the exceptions are the
      constructors of [failure].
    - [std::vector<p_parameter_t>] is a [list] read with [!!] and updated
      with [<[ _ := _ ]>].
    - [getopt_long] and [strtof] belong to the C library, not to this
      repository: the dispatcher is defined over any implementation of them
      (classes [Getopt] and [FloatModel]); a model of the glibc scanner is
      given further down to run the dispatcher on concrete command lines. *)

From Stdlib Require Import ZArith Ascii String Lia.
From stdpp Require Import base list strings.

Local Open Scope Z_scope.

(** ** Machine integers and characters *)

Definition INT_MIN : Z := - 2 ^ 31.
Definition INT_MAX : Z := 2 ^ 31 - 1.

Definition int_range (z : Z) : Prop := INT_MIN <= z <= INT_MAX.

Definition in_int_range (z : Z) : bool := (INT_MIN <=? z) && (z <=? INT_MAX).

(** Two's complement reduction of an integer to 32 bits. *)
Definition wrap_int (z : Z) : Z := (z + 2 ^ 31) mod 2 ^ 32 - 2 ^ 31.

(** [(char)c]: the low eight bits of an [int]. *)
Definition to_char (z : Z) : ascii := ascii_of_N (Z.to_N (z mod 256)).

(** The [int] a (non-negative) [char] converts to. *)
Definition of_char (c : ascii) : Z := Z.of_N (N_of_ascii c).

(** [std::string::c_str()] as a C reader sees it: the text before the first
    NUL character. *)
Fixpoint c_str (s : string) : string :=
  match s with
  | EmptyString => EmptyString
  | String c s' => if Ascii.eqb c zero then EmptyString else String c (c_str s')
  end.

(** ** Exceptions *)

(** The exceptions that can leave the library, each with its [what()] text.
    [undefined_behaviour] is not an exception: it marks the places where the
    C++ standard gives the program no meaning (the text says which). *)
Inductive failure : Type :=
  | invalid_argument (what : string)
  | out_of_range (what : string)
  | logic_error (what : string)
  | undefined_behaviour (why : string).

Inductive outcome (A : Type) : Type :=
  | Returns (a : A)
  | Throws (e : failure).
Arguments Returns {A} a.
Arguments Throws {A} e.

(** ** The enumerations and the result type *)

Inductive HasArg : Type :=
  | has_no_argument
  | has_optional_argument
  | has_requred_argument.

(** The values <getopt.h> gives to [no_argument], [required_argument] and
    [optional_argument]. *)
Definition no_argument : Z := 0.
Definition required_argument : Z := 1.
Definition optional_argument : Z := 2.

Definition HasArg_value (h : HasArg) : Z :=
  match h with
  | has_no_argument => no_argument
  | has_optional_argument => optional_argument
  | has_requred_argument => required_argument
  end.

Definition is_no_argument (h : HasArg) : bool :=
  match h with has_no_argument => true | _ => false end.

Inductive ExitState : Type :=
  | NoMoreArgs
  | PauseArgsProcessing.

Definition options_result_t : Type := ExitState * Z.

(** ** Reading numbers from text *)

Definition is_digit (c : ascii) : bool :=
  (48 <=? of_char c) && (of_char c <=? 57).

Definition digit_value (c : ascii) : Z := of_char c - 48.

(** Leading white space ([isspace] in the C locale) is skipped by [strtol],
    [strtof] and by formatted stream extraction. *)
Fixpoint skip_space (s : string) : string :=
  match s with
  | String c s' => if Ascii.is_space c then skip_space s' else s
  | EmptyString => EmptyString
  end.

(** An optional sign: [true] for a minus sign, and the text after it. *)
Definition read_sign (s : string) : bool * string :=
  match s with
  | String "-" s' => (true, s')
  | String "+" s' => (false, s')
  | _ => (false, s)
  end.

(** The longest run of decimal digits at the head of a text. *)
Fixpoint digit_run (s : string) : list ascii :=
  match s with
  | String c s' => if is_digit c then c :: digit_run s' else []
  | EmptyString => []
  end.

Definition digits_value (ds : list ascii) : Z :=
  fold_left (fun acc c => 10 * acc + digit_value c) ds 0.

(** [strtol(s, &end, 10)] without the clamping to [long]: the exact value of
    the number read, or [None] when no digit could be read ([end == s]). *)
Definition strtol10 (s : string) : option Z :=
  let '(neg, s') := read_sign (skip_space s) in
  match digit_run s' with
  | [] => None
  | ds => Some (if neg then - digits_value ds else digits_value ds)
  end.

(** [std::stoi(std::string(optarg))]: [std::invalid_argument] when [strtol]
    converts nothing, [std::out_of_range] when the value does not fit an
    [int]; the [what()] text is the name of the function. *)
Definition stoi (s : string) : outcome Z :=
  match strtol10 (c_str s) with
  | None => Throws (invalid_argument "stoi")
  | Some v => if in_int_range v then Returns v else Throws (out_of_range "stoi")
  end.

(** *** Floating point *)

(** The [float] type and the numeric part of [strtof] are taken from the
    platform. [strtof_value s] is asked only for texts in which [strtof]
    finds a number; it is [None] when [strtof] sets [ERANGE]. *)
Class FloatModel : Type := {
  float : Type;
  float_of_int : Z -> float;
  strtof_value : string -> option float
}.

Definition lower (c : ascii) : ascii :=
  if (65 <=? of_char c) && (of_char c <=? 90) then to_char (of_char c + 32) else c.

Fixpoint starts_with_nocase (p s : string) : bool :=
  match p, s with
  | EmptyString, _ => true
  | String a p', String b s' => Ascii.eqb a (lower b) && starts_with_nocase p' s'
  | String _ _, EmptyString => false
  end.

(** Whether a text starts with a decimal digit. *)
Definition starts_with_digit (s : string) : bool :=
  match s with String c _ => is_digit c | EmptyString => false end.

(** The ways a number can start for [strtof], once white space and sign are
    read: a digit, a point followed by a digit (this covers the decimal and
    the hexadecimal forms), or the words [inf] and [nan] in any case. *)
Definition float_start (s : string) : bool :=
  starts_with_digit s
  || match s with String "." r => starts_with_digit r | _ => false end
  || starts_with_nocase "inf" s
  || starts_with_nocase "nan" s.

(** Whether [strtof] finds a number at the head of the text. *)
Definition strtof_converts (s : string) : bool :=
  let '(_, s') := read_sign (skip_space s) in float_start s'.

(** [std::stof(std::string(optarg))]. *)
Definition stof `{FloatModel} (s : string) : outcome float :=
  if strtof_converts (c_str s) then
    match strtof_value (c_str s) with
    | Some f => Returns f
    | None => Throws (out_of_range "stof")
    end
  else Throws (invalid_argument "stof").

(** *** Stream extraction of a [bool]

    [std::stringstream ss(optarg); bool r; ss >> r;] with the default flags
    ([skipws], [dec], no [boolalpha]): the text is read as a [long]; the
    number 0 stores [false], 1 stores [true], any other number stores [true]
    and a text without a number stores [false] (the stream state is not
    looked at by the caller). When only white space is left the stream
    stores nothing and [r] is returned uninitialised. *)
Definition extract_bool (s : string) : outcome bool :=
  match skip_space s with
  | EmptyString =>
      Throws (undefined_behaviour "converter<bool>: r is read uninitialised")
  | s1 =>
      let '(_, s2) := read_sign s1 in
      Returns (existsb (fun c => negb (Ascii.eqb c "0")) (digit_run s2))
  end.

(** ** The conversion layer *)

(** [converter<T>()], the value for "no argument": the primary template
    ([static_cast<T>(0)]) at [int] and [float], and the specialisations for
    [std::string] and [bool]. *)
Definition converter_default_bool : bool := true.
Definition converter_default_int : Z := 0.
Definition converter_default_float `{FloatModel} : float := float_of_int 0.
Definition converter_default_string : string := EmptyString.

(** [converter<bool>(char *optarg)] is the primary template of [converter<T>(char *optarg)]:
    the null test, then stream extraction. *)
Definition converter_bool (optarg : option string) : outcome bool :=
  match optarg with
  | None => Returns converter_default_bool
  | Some s => extract_bool (c_str s)
  end.

(** [converter<int>(char *optarg)]. *)
Definition converter_int (optarg : option string) : outcome Z :=
  match optarg with
  | None => Returns 0
  | Some s => stoi s
  end.

(** [converter<float>(char *optarg)]; the [0] it returns for a null pointer is the
    [int] zero converted to [float]. *)
Definition converter_float `{FloatModel} (optarg : option string) : outcome float :=
  match optarg with
  | None => Returns (float_of_int 0)
  | Some s => stof s
  end.

(** [converter<std::string>(char *optarg)] has no null test: it hands the pointer to
    the [std::string] constructor, which must not be given a null pointer. *)
Definition converter_string (optarg : option string) : outcome string :=
  match optarg with
  | None =>
      Throws (undefined_behaviour "std::string constructed from a null pointer")
  | Some s => Returns (c_str s)
  end.

(** The overload set [converter<T>] as an interface: one instance for each
    type of the closed set. [value_init] is [T()], the value a descriptor is
    constructed with. *)
Class Converter (T : Type) : Type := {
  value_init : T;
  converter0 : T;
  converter : option string -> outcome T
}.

#[export] Instance Converter_bool : Converter bool :=
  {| value_init := false;
     converter0 := converter_default_bool;
     converter := converter_bool |}.

#[export] Instance Converter_int : Converter Z :=
  {| value_init := 0;
     converter0 := converter_default_int;
     converter := converter_int |}.

#[export] Instance Converter_float `{FloatModel} : Converter float :=
  {| value_init := float_of_int 0;
     converter0 := converter_default_float;
     converter := converter_float |}.

#[export] Instance Converter_string : Converter string :=
  {| value_init := EmptyString;
     converter0 := converter_default_string;
     converter := converter_string |}.

(** ** Option descriptors *)

Record parameter_t (T : Type) : Type := Build_parameter {
  l_name : string;
  l_has_arg : HasArg;
  l_val : Z;
  l_flag : Z;
  l_seen : Z;
  l_incomplete_conv : bool;
  l_value : T
}.
Arguments Build_parameter {T}.
Arguments l_name {T}.
Arguments l_has_arg {T}.
Arguments l_val {T}.
Arguments l_flag {T}.
Arguments l_seen {T}.
Arguments l_incomplete_conv {T}.
Arguments l_value {T}.

(** The constructor [parameter_t(name, has_arg, val)]. *)
Definition new_parameter {T} `{Converter T}
    (name : string) (has_arg : HasArg) (val : Z) : parameter_t T :=
  Build_parameter (c_str name) has_arg val 0 0 false value_init.

(** [parameter_t<T>::convert]. *)
Definition convert {T} `{Converter T}
    (arg : parameter_t T) (optarg : option string) : outcome T :=
  converter optarg.

Definition set_seen {T} (n : Z) (arg : parameter_t T) : parameter_t T :=
  Build_parameter (l_name arg) (l_has_arg arg) (l_val arg) (l_flag arg)
    n (l_incomplete_conv arg) (l_value arg).

Definition set_value {T} (v : T) (arg : parameter_t T) : parameter_t T :=
  Build_parameter (l_name arg) (l_has_arg arg) (l_val arg) (l_flag arg)
    (l_seen arg) (l_incomplete_conv arg) v.

(** [p_parameter_t], the variant over the four descriptor types. *)
Inductive p_parameter_t `{FloatModel} : Type :=
  | p_bool (arg : parameter_t bool)
  | p_int (arg : parameter_t Z)
  | p_float (arg : parameter_t float)
  | p_string (arg : parameter_t string).

(** The value held by a descriptor, tagged with its type. *)
Inductive p_value `{FloatModel} : Type :=
  | v_bool (b : bool)
  | v_int (z : Z)
  | v_float (f : float)
  | v_string (s : string).

Section Visit.
Context `{FloatModel}.

(** [std::visit] with a generic lambda that reads one field. *)
Definition visit {R : Type} (f : forall T, parameter_t T -> R)
    (p : p_parameter_t) : R :=
  match p with
  | p_bool arg => f _ arg
  | p_int arg => f _ arg
  | p_float arg => f _ arg
  | p_string arg => f _ arg
  end.

Definition p_name : p_parameter_t -> string := visit (@l_name).
Definition p_has_arg : p_parameter_t -> HasArg := visit (@l_has_arg).
Definition p_val : p_parameter_t -> Z := visit (@l_val).
Definition p_flag : p_parameter_t -> Z := visit (@l_flag).
Definition p_seen : p_parameter_t -> Z := visit (@l_seen).
Definition p_incomplete_conv : p_parameter_t -> bool := visit (@l_incomplete_conv).

Definition p_current (p : p_parameter_t) : p_value :=
  match p with
  | p_bool arg => v_bool (l_value arg)
  | p_int arg => v_int (l_value arg)
  | p_float arg => v_float (l_value arg)
  | p_string arg => v_string (l_value arg)
  end.

(** Which alternative of the variant a descriptor is. *)
Inductive p_type : Type := T_bool | T_int | T_float | T_string.

Definition p_type_of (p : p_parameter_t) : p_type :=
  match p with
  | p_bool _ => T_bool
  | p_int _ => T_int
  | p_float _ => T_float
  | p_string _ => T_string
  end.
End Visit.

(** ** The scanner interface *)

(** [struct option] of <getopt.h>; a null [name] marks the end of a table
    and a null [flag] is [None]. *)
Record struct_option : Type := Build_option {
  name : option string;
  has_arg : Z;
  flag : option Z;
  val : Z
}.

(** What one call of [getopt_long] leaves behind: the returned [int], the
    cell [*longindex], the argument vector (the scanner may reorder it) and
    the scanner's own state. *)
Record scan (D : Type) : Type := Build_scan {
  scan_c : Z;
  scan_longindex : Z;
  scan_argv : list string;
  scan_data : D
}.
Arguments Build_scan {D}.
Arguments scan_c {D}.
Arguments scan_longindex {D}.
Arguments scan_argv {D}.
Arguments scan_data {D}.

(** [getopt_long(argc, argv, optstring, longopts, &longindex)] together with
    the process-wide variables it keeps ([optind], [optarg] and its hidden
    cursor), gathered in [getopt_data]. *)
Class Getopt : Type := {
  getopt_data : Type;
  optind : getopt_data -> Z;
  optarg : getopt_data -> option string;
  getopt_long :
    Z -> list string -> string -> list struct_option -> Z -> getopt_data ->
    scan getopt_data
}.

(** ** The dispatcher *)

(** [size_t] value of an [int] used as an index or compared with a size. *)
Definition to_size_t (z : Z) : Z := z mod 2 ^ 64.

Definition not_defined_message (c : ascii) : string :=
  "getopt_long returned short option '" +:+ String c "' event though it is not defined.".

(** The exception thrown when the returned character is not in
    [small_opts]. *)
Definition short_option_not_defined (c : Z) : failure :=
  invalid_argument (not_defined_message (to_char c)).

Definition flag_message : string := "This implementation should not set 'flag'.".

Definition bad_index_message : string := "parameters[option_index] is out of bounds".

(** How one turn of the scan loop ends. *)
Inductive control : Type :=
  | Break (result : options_result_t)
  | Continue
  | Throw (e : failure).

(** How a call of [processOptions] ends; [Unfinished] when the turns allowed
    to the loop are used up. *)
Inductive completion : Type :=
  | Returned (result : options_result_t)
  | Thrown (e : failure)
  | Unfinished.

Section Dispatcher.
Context `{FM : FloatModel} `{G : Getopt}.

(** The state a call works on: the caller's vector of descriptors, the
    argument vector and the scanner's variables. *)
Record machine : Type := Build_machine {
  parameters : list p_parameter_t;
  argv : list string;
  data : getopt_data
}.

(** The first loop, entry [i] of [options]. *)
Definition long_option (p : p_parameter_t) : struct_option :=
  {| name := Some (c_str (p_name p));
     has_arg := HasArg_value (p_has_arg p);
     flag := None;
     val := p_val p |}.

Definition sentinel : struct_option :=
  {| name := None; has_arg := 0; flag := None; val := 0 |}.

(** [options], with the terminating entry. *)
Definition options (ps : list p_parameter_t) : list struct_option :=
  (long_option <$> ps) ++ [sentinel].

(** [small_opts]: the short codes in collection order. *)
Definition small_opts (ps : list p_parameter_t) : list ascii :=
  (fun p => to_char (p_val p)) <$> ps.

(** What the first loop writes to [ss] for one descriptor. *)
Definition short_entry (p : p_parameter_t) : string :=
  String (to_char (p_val p))
    (if is_no_argument (p_has_arg p) then EmptyString else ":").

(** [ss.str()] after the first loop: the option string. *)
Fixpoint ss_str (ps : list p_parameter_t) : string :=
  match ps with
  | [] => EmptyString
  | p :: ps' => short_entry p +:+ ss_str ps'
  end.

(** [std::find(so_begin, so_end, (char)c) - so_begin], or [None] for
    [so_end]. *)
Definition find_small_opt (so : list ascii) (c : Z) : option nat :=
  fst <$> list_find (fun x => x = to_char c) so.

(** The lambda visited on a match, at one descriptor type: count, then
    convert and store. When the conversion throws, the count is already
    written and the value is not. *)
Definition on_match {T} `{Converter T}
    (optarg_ : option string) (arg : parameter_t T)
    : parameter_t T * option failure :=
  let arg := set_seen (wrap_int (l_seen arg + 1)) arg in
  let r := if is_no_argument (l_has_arg arg)
           then convert arg None
           else convert arg optarg_ in
  match r with
  | Returns v => (set_value v arg, None)
  | Throws e => (arg, Some e)
  end.

Definition visit_match (optarg_ : option string) (p : p_parameter_t)
    : p_parameter_t * option failure :=
  match p with
  | p_bool arg => let '(a, e) := on_match optarg_ arg in (p_bool a, e)
  | p_int arg => let '(a, e) := on_match optarg_ arg in (p_int a, e)
  | p_float arg => let '(a, e) := on_match optarg_ arg in (p_float a, e)
  | p_string arg => let '(a, e) := on_match optarg_ arg in (p_string a, e)
  end.

(** The index of the matched descriptor: the one the scanner wrote, or,
    when the cell still holds the size of the collection, the position of
    the returned character in [small_opts]. *)
Definition resolve (so : list ascii) (size : nat) (c option_index : Z)
    : outcome Z :=
  if to_size_t option_index =? Z.of_nat size then
    match find_small_opt so c with
    | Some i => Returns (wrap_int (Z.of_nat i))
    | None => Throws (short_option_not_defined c)
    end
  else Returns option_index.

(** One turn of [while (true)]. *)
Definition iteration (argc : Z) (optstring : string)
    (longopts : list struct_option) (so : list ascii) (m : machine)
    : control * machine :=
  let ps := parameters m in
  let option_index := wrap_int (Z.of_nat (length ps)) in
  let r := getopt_long argc (argv m) optstring longopts option_index (data m) in
  let m' := Build_machine ps (scan_argv r) (scan_data r) in
  let c := scan_c r in
  if c =? -1 then (Break (NoMoreArgs, optind (scan_data r)), m')
  else if 0 <? c then
    match resolve so (length ps) c (scan_longindex r) with
    | Throws e => (Throw e, m')
    | Returns option_index =>
        let i := Z.to_nat (to_size_t option_index) in
        match ps !! i with
        | None => (Throw (undefined_behaviour bad_index_message), m')
        | Some p =>
            let '(p', e) := visit_match (optarg (scan_data r)) p in
            let m'' := Build_machine (<[i := p']> ps) (scan_argv r) (scan_data r) in
            match e with
            | None => (Continue, m'')
            | Some e => (Throw e, m'')
            end
        end
    end
  else (Throw (logic_error flag_message), m').

Fixpoint scan_loop (fuel : nat) (argc : Z) (optstring : string)
    (longopts : list struct_option) (so : list ascii) (m : machine)
    : completion * machine :=
  match fuel with
  | O => (Unfinished, m)
  | S fuel' =>
      match iteration argc optstring longopts so m with
      | (Break result, m') => (Returned result, m')
      | (Continue, m') => scan_loop fuel' argc optstring longopts so m'
      | (Throw e, m') => (Thrown e, m')
      end
  end.

(** [processOptions(argc, argv, parameters)]: the tables are built once,
    then the loop runs. [fuel] bounds the number of turns. *)
Definition processOptions (fuel : nat) (argc : Z) (m : machine)
    : completion * machine :=
  let ps := parameters m in
  scan_loop fuel argc (c_str (ss_str ps)) (options ps) (small_opts ps) m.
End Dispatcher.

(** ** A model of the glibc scanner

    [getopt_long] is not part of the repository. To run the dispatcher on
    concrete command lines, this module follows glibc's [_getopt_internal_r]
    and [process_long_option] (with [long_only = 0]); the messages written
    to [stderr] are left out. The theorems about the dispatcher do not
    depend on it: they hold for every instance of [Getopt]. *)
Module Glibc.

Inductive ordering : Type := REQUIRE_ORDER | PERMUTE | RETURN_IN_ORDER.

Record getopt_data : Type := Build_data {
  optind : Z;
  optarg : option string;
  optopt : Z;
  initialized : bool;
  nextchar : option string;     (* the unread rest of the current element *)
  order : ordering;
  first_nonopt : Z;
  last_nonopt : Z;
  posixly_correct : bool        (* whether POSIXLY_CORRECT is set *)
}.

(** The variables as the C library initialises them. [optopt] is the global
    variable, [?] when the program starts; the library overwrites it at every
    call with its own copy, which starts at zero, and this is not modelled:
    the dispatcher never reads [optopt]. *)
Definition start : getopt_data :=
  Build_data 1 None 63 false None PERMUTE 0 0 false.

Definition set_optind (i : Z) (d : getopt_data) : getopt_data :=
  Build_data i (optarg d) (optopt d) (initialized d) (nextchar d) (order d)
    (first_nonopt d) (last_nonopt d) (posixly_correct d).
Definition set_optarg (a : option string) (d : getopt_data) : getopt_data :=
  Build_data (optind d) a (optopt d) (initialized d) (nextchar d) (order d)
    (first_nonopt d) (last_nonopt d) (posixly_correct d).
Definition set_optopt (c : Z) (d : getopt_data) : getopt_data :=
  Build_data (optind d) (optarg d) c (initialized d) (nextchar d) (order d)
    (first_nonopt d) (last_nonopt d) (posixly_correct d).
Definition set_nextchar (n : option string) (d : getopt_data) : getopt_data :=
  Build_data (optind d) (optarg d) (optopt d) (initialized d) n (order d)
    (first_nonopt d) (last_nonopt d) (posixly_correct d).
Definition set_first_nonopt (i : Z) (d : getopt_data) : getopt_data :=
  Build_data (optind d) (optarg d) (optopt d) (initialized d) (nextchar d)
    (order d) i (last_nonopt d) (posixly_correct d).
Definition set_last_nonopt (i : Z) (d : getopt_data) : getopt_data :=
  Build_data (optind d) (optarg d) (optopt d) (initialized d) (nextchar d)
    (order d) (first_nonopt d) i (posixly_correct d).

(** [argv[i]]. *)
Definition arg (argv : list string) (i : Z) : string :=
  default EmptyString (argv !! Z.to_nat i).

(** The [int] a [char] converts to where [char] is signed. *)
Definition int_of_char (c : ascii) : Z :=
  if of_char c <? 128 then of_char c else of_char c - 256.

Definition head_is (c : ascii) (s : string) : bool :=
  match s with String a _ => Ascii.eqb a c | EmptyString => false end.

Definition tail (s : string) : string :=
  match s with String _ s' => s' | EmptyString => EmptyString end.

(** [strchr(s, c)] for a character other than NUL. *)
Fixpoint strchr (s : string) (c : ascii) : option string :=
  match s with
  | EmptyString => None
  | String a s' => if Ascii.eqb a c then Some s else strchr s' c
  end.

(** [NONOPTION_P]: the element does not start with a dash, or is a lone
    dash. *)
Definition nonoption_p (s : string) : bool :=
  match s with
  | String "-" (String _ _) => false
  | _ => true
  end.

(** [exchange]: the non-options in [first_nonopt, last_nonopt) and the
    options in [last_nonopt, optind) trade places. *)
Definition exchange (argv : list string) (d : getopt_data)
    : list string * getopt_data :=
  let bottom := first_nonopt d in
  let middle := last_nonopt d in
  let top := optind d in
  let argv' :=
    if (middle <? top) && (bottom <? middle) then
      take (Z.to_nat bottom) argv
        ++ drop (Z.to_nat middle) (take (Z.to_nat top) argv)
        ++ drop (Z.to_nat bottom) (take (Z.to_nat middle) argv)
        ++ drop (Z.to_nat top) argv
    else argv in
  (argv',
   set_last_nonopt (optind d)
     (set_first_nonopt (first_nonopt d + (optind d - last_nonopt d)) d)).

(** [_getopt_initialize]; returns the option string without its leading
    mode character. *)
Definition initialize (optstring : string) (d : getopt_data)
    : string * getopt_data :=
  let i := if optind d =? 0 then 1 else optind d in
  let '(o, optstring') :=
    if head_is "-" optstring then (RETURN_IN_ORDER, tail optstring)
    else if head_is "+" optstring then (REQUIRE_ORDER, tail optstring)
    else if posixly_correct d then (REQUIRE_ORDER, optstring)
    else (PERMUTE, optstring) in
  (optstring',
   Build_data i (optarg d) (optopt d) true None o i i (posixly_correct d)).

(** [while (optind < argc && NONOPTION_P) optind++], over the elements
    from [optind] up to [argc]. *)
Fixpoint skip_nonoptions (rest : list string) (i : Z) : Z :=
  match rest with
  | s :: rest' => if nonoption_p s then skip_nonoptions rest' (i + 1) else i
  | [] => i
  end.

Fixpoint is_prefix (p s : string) : bool :=
  match p, s with
  | EmptyString, _ => true
  | String a p', String b s' => Ascii.eqb a b && is_prefix p' s'
  | String _ _, EmptyString => false
  end.

(** The name part of [--name=value] and what follows the [=], if any. *)
Fixpoint split_name (s : string) : string * option string :=
  match s with
  | EmptyString => (EmptyString, None)
  | String c s' =>
      if Ascii.eqb c "=" then (EmptyString, Some s')
      else let '(n, v) := split_name s' in (String c n, v)
  end.

(** The first entry whose name is exactly [n], with its index. *)
Fixpoint exact_match (n : string) (longopts : list struct_option) (i : Z)
    : option (Z * struct_option) :=
  match longopts with
  | [] => None
  | p :: rest =>
      match name p with
      | None => None
      | Some pn =>
          if String.eqb pn n then Some (i, p) else exact_match n rest (i + 1)
      end
  end.

(** The entries [n] abbreviates: the first one found, and whether a later
    one differs from it in [has_arg], [flag] or [val]. *)
Fixpoint abbreviations (n : string) (longopts : list struct_option) (i : Z)
    (found : option (Z * struct_option)) (ambig : bool)
    : option (Z * struct_option) * bool :=
  match longopts with
  | [] => (found, ambig)
  | p :: rest =>
      match name p with
      | None => (found, ambig)
      | Some pn =>
          if is_prefix n pn then
            match found with
            | None => abbreviations n rest (i + 1) (Some (i, p)) ambig
            | Some (_, pf) =>
                if negb (has_arg pf =? has_arg p)
                   || negb (bool_decide (flag pf = flag p))
                   || negb (val pf =? val p)
                then abbreviations n rest (i + 1) found true
                else abbreviations n rest (i + 1) found ambig
            end
          else abbreviations n rest (i + 1) found ambig
      end
  end.

(** [process_long_option], on the text [nc] that follows the dashes. *)
Definition process_long_option (argc : Z) (argv : list string)
    (optstring : string) (longopts : list struct_option) (longind : Z)
    (nc : string) (d : getopt_data) : scan getopt_data :=
  let '(n, value) := split_name nc in
  let lookup :=
    match exact_match n longopts 0 with
    | Some f => (Some f, false)
    | None => abbreviations n longopts 0 None false
    end in
  match lookup with
  | (_, true) =>
      Build_scan 63 longind argv
        (set_optopt 0 (set_optind (optind d + 1) (set_nextchar (Some EmptyString) d)))
  | (None, false) =>
      Build_scan 63 longind argv
        (set_optopt 0 (set_optind (optind d + 1) (set_nextchar None d)))
  | (Some (option_index, pfound), false) =>
      let d := set_nextchar None (set_optind (optind d + 1) d) in
      let finish (d : getopt_data) :=
        match flag pfound with
        | Some _ => Build_scan 0 option_index argv d
        | None => Build_scan (val pfound) option_index argv d
        end in
      match value with
      | Some v =>
          if has_arg pfound =? 0
          then Build_scan 63 longind argv (set_optopt (val pfound) d)
          else finish (set_optarg (Some v) d)
      | None =>
          if has_arg pfound =? 1 then
            if optind d <? argc
            then finish (set_optind (optind d + 1)
                           (set_optarg (Some (arg argv (optind d))) d))
            else Build_scan (if head_is ":" optstring then 58 else 63)
                   longind argv (set_optopt (val pfound) d)
          else finish d
      end
  end.

(** The short-option part of [_getopt_internal_r]: [nc] is the unread,
    non-empty rest of the current element. *)
Definition short_option (argc : Z) (argv : list string)
    (optstring : string) (longopts : list struct_option) (longind : Z)
    (nc : string) (d : getopt_data) : scan getopt_data :=
  match nc with
  | EmptyString => Build_scan 63 longind argv d
  | String c rest =>
      let d := set_nextchar (Some rest) d in
      let d := match rest with
               | EmptyString => set_optind (optind d + 1) d
               | _ => d
               end in
      let missing := if head_is ":" optstring then 58 else 63 in
      match strchr optstring c with
      | None => Build_scan 63 longind argv (set_optopt (int_of_char c) d)
      | Some temp =>
          if Ascii.eqb c ":" || Ascii.eqb c ";" then
            Build_scan 63 longind argv (set_optopt (int_of_char c) d)
          else if Ascii.eqb c "W" && head_is ";" (tail temp) then
            match rest with
            | String _ _ =>
                process_long_option argc argv optstring longopts longind
                  rest (set_optarg None (set_nextchar (Some rest) d))
            | EmptyString =>
                if optind d =? argc then
                  Build_scan missing longind argv (set_optopt (int_of_char c) d)
                else
                  process_long_option argc argv optstring longopts longind
                    (arg argv (optind d))
                    (set_optarg None
                       (set_nextchar (Some (arg argv (optind d))) d))
            end
          else if head_is ":" (tail temp) then
            if head_is ":" (tail (tail temp)) then
              match rest with
              | String _ _ =>
                  Build_scan (int_of_char c) longind argv
                    (set_nextchar None
                       (set_optind (optind d + 1) (set_optarg (Some rest) d)))
              | EmptyString =>
                  Build_scan (int_of_char c) longind argv
                    (set_nextchar None (set_optarg None d))
              end
            else
              match rest with
              | String _ _ =>
                  Build_scan (int_of_char c) longind argv
                    (set_nextchar None
                       (set_optind (optind d + 1) (set_optarg (Some rest) d)))
              | EmptyString =>
                  if optind d =? argc then
                    Build_scan missing longind argv
                      (set_nextchar None (set_optopt (int_of_char c) d))
                  else
                    Build_scan (int_of_char c) longind argv
                      (set_nextchar None
                         (set_optind (optind d + 1)
                            (set_optarg (Some (arg argv (optind d))) d)))
              end
          else Build_scan (int_of_char c) longind argv d
      end
  end.

(** The part of [_getopt_internal_r] that moves on to the next element of
    [argv] when the current one is used up. It either ends the call or
    leaves the text of the short options to read. *)
Definition advance (argc : Z) (argv : list string) (optstring : string)
    (longopts : list struct_option) (longind : Z) (d : getopt_data)
    : scan getopt_data + (list string * string * getopt_data) :=
  let d := if optind d <? last_nonopt d then set_last_nonopt (optind d) d else d in
  let d := if optind d <? first_nonopt d then set_first_nonopt (optind d) d else d in
  let '(argv, d) :=
    match order d with
    | PERMUTE =>
        let '(argv, d) :=
          if negb (first_nonopt d =? last_nonopt d)
             && negb (last_nonopt d =? optind d)
          then exchange argv d
          else if negb (last_nonopt d =? optind d)
          then (argv, set_first_nonopt (optind d) d)
          else (argv, d) in
        let i := skip_nonoptions
                   (drop (Z.to_nat (optind d)) (take (Z.to_nat argc) argv))
                   (optind d) in
        (argv, set_last_nonopt i (set_optind i d))
    | _ => (argv, d)
    end in
  let '(argv, d) :=
    if negb (optind d =? argc) && String.eqb (arg argv (optind d)) "--" then
      let d := set_optind (optind d + 1) d in
      let '(argv, d) :=
        if negb (first_nonopt d =? last_nonopt d)
           && negb (last_nonopt d =? optind d)
        then exchange argv d
        else if first_nonopt d =? last_nonopt d
        then (argv, set_first_nonopt (optind d) d)
        else (argv, d) in
      (argv, set_optind argc (set_last_nonopt argc d))
    else (argv, d) in
  if optind d =? argc then
    let d := if negb (first_nonopt d =? last_nonopt d)
             then set_optind (first_nonopt d) d else d in
    inl (Build_scan (-1) longind argv d)
  else if nonoption_p (arg argv (optind d)) then
    match order d with
    | REQUIRE_ORDER => inl (Build_scan (-1) longind argv d)
    | _ =>
        inl (Build_scan 1 longind argv
               (set_optind (optind d + 1)
                  (set_optarg (Some (arg argv (optind d))) d)))
    end
  else if head_is "-" (tail (arg argv (optind d))) then
    let nc := tail (tail (arg argv (optind d))) in
    inl (process_long_option argc argv optstring longopts longind nc
           (set_nextchar (Some nc) d))
  else
    let nc := tail (arg argv (optind d)) in
    inr (argv, nc, set_nextchar (Some nc) d).

(** [getopt_long]. *)
Definition getopt_long (argc : Z) (argv : list string) (optstring : string)
    (longopts : list struct_option) (longind : Z) (d : getopt_data)
    : scan getopt_data :=
  if argc <? 1 then Build_scan (-1) longind argv d
  else
    let d := set_optarg None d in
    let '(optstring, d) :=
      if (optind d =? 0) || negb (initialized d) then initialize optstring d
      else if head_is "-" optstring || head_is "+" optstring
      then (tail optstring, d)
      else (optstring, d) in
    match nextchar d with
    | Some (String c rest) =>
        short_option argc argv optstring longopts longind (String c rest) d
    | _ =>
        match advance argc argv optstring longopts longind d with
        | inl r => r
        | inr (argv, nc, d) =>
            short_option argc argv optstring longopts longind nc d
        end
    end.

End Glibc.

(** The glibc scanner as an implementation of the interface. *)
#[export] Instance glibc : Getopt :=
  {| getopt_data := Glibc.getopt_data;
     optind := Glibc.optind;
     optarg := Glibc.optarg;
     getopt_long := Glibc.getopt_long |}.

(** ** The demonstration program *)

(** A stand-in for [float] on which the dispatcher can be run: a value is
    kept as the [int] it was converted from or as the text [strtof] read it
    from, and no text is out of range. *)
Inductive text_float : Type :=
  | float_int (z : Z)
  | float_text (s : string).

#[export] Instance text_floats : FloatModel :=
  {| float := text_float;
     float_of_int := float_int;
     strtof_value := fun s => Some (float_text s) |}.

(** The vector [parameter] of [main.cpp]. *)
Definition parameter : list p_parameter_t :=
  [ p_bool (new_parameter "enable" has_no_argument (of_char "e"));
    p_int (new_parameter "start" has_requred_argument (of_char "s"));
    p_float (new_parameter "pi" has_requred_argument (of_char "p"));
    p_string (new_parameter "file" has_requred_argument (of_char "f")) ].

(** The state in which [main] first calls [processOptions]. *)
Definition main_machine (argv : list string) : machine :=
  Build_machine parameter argv Glibc.start.

Definition argc_of (argv : list string) : Z := Z.of_nat (length argv).

(** The call [plib::processOptions(argc, argv, parameter)] of [main], in a
    process that has not used the scanner before. *)
Definition main_call (fuel : nat) (line : list string) : completion * machine :=
  processOptions fuel (argc_of line) (main_machine line).

(** Command lines used below. *)
Definition residual_line : list string :=
  ["prog"; "-e"; "--"; "residual1"; "residual2"].
Definition bogus_line : list string := ["prog"; "--bogus"].
Definition abc_line : list string := ["prog"; "--start"; "abc"].
Definition trailing_line : list string := ["prog"; "--start"; "12abc"].
Definition short_start_line : list string := ["prog"; "-s"; "42"].
Definition enable_abc_line : list string := ["prog"; "-e"; "--start"; "abc"].

(** The descriptors of [parameter] as one match leaves them. *)
Definition enable_seen : p_parameter_t :=
  p_bool (Build_parameter "enable" has_no_argument (of_char "e") 0 1 false true).
Definition start_declared : p_parameter_t :=
  p_int (new_parameter "start" has_requred_argument (of_char "s")).

(** A string option that takes no argument: its matches reach the string
    conversion without a text. *)
Definition name_flag : list p_parameter_t :=
  [ p_string (new_parameter "name" has_no_argument (of_char "n")) ].

(** An integer option whose argument is optional. *)
Definition level_optional : list p_parameter_t :=
  [ p_int (new_parameter "level" has_optional_argument (of_char "l")) ].

(** The same option with a required argument. *)
Definition level_required : list p_parameter_t :=
  [ p_int (new_parameter "level" has_requred_argument (of_char "l")) ].

(** Two options declared with one short code. *)
Definition twins : list p_parameter_t :=
  [ p_bool (new_parameter "first" has_no_argument (of_char "x"));
    p_int (new_parameter "second" has_requred_argument (of_char "x")) ].

(** ** Vocabulary of the properties *)

Section Vocabulary.
Context `{FM : FloatModel} `{G : Getopt}.

(** What the caller declared in a descriptor: its type and every field
    except the occurrence count and the current value. *)
Definition declaration (p : p_parameter_t)
    : p_type * string * HasArg * Z * Z * bool :=
  (p_type_of p, p_name p, p_has_arg p, p_val p, p_flag p, p_incomplete_conv p).

(** Two collections that declare the same options, position by position. *)
Definition same_declarations (ps ps' : list p_parameter_t) : Prop :=
  Forall2 (fun p p' => declaration p' = declaration p) ps ps'.

(** The text handed to the conversion layer for a descriptor: the scanner's
    [optarg] unless the policy is "no argument". *)
Definition passed_text (p : p_parameter_t) (optarg_ : option string)
    : option string :=
  if is_no_argument (p_has_arg p) then None else optarg_.

(** The conversion layer at the type of a descriptor. *)
Definition p_convert (p : p_parameter_t) (text : option string)
    : outcome p_value :=
  match p with
  | p_bool _ =>
      match converter_bool text with
      | Returns b => Returns (v_bool b) | Throws e => Throws e end
  | p_int _ =>
      match converter_int text with
      | Returns z => Returns (v_int z) | Throws e => Throws e end
  | p_float _ =>
      match converter_float text with
      | Returns f => Returns (v_float f) | Throws e => Throws e end
  | p_string _ =>
      match converter_string text with
      | Returns s => Returns (v_string s) | Throws e => Throws e end
  end.

(** Position [i] is the first one in the short-code index that holds the
    character of [c]. *)
Definition first_with_code (ps : list p_parameter_t) (c : Z) (i : nat) : Prop :=
  small_opts ps !! i = Some (to_char c) /\
  forall j, (j < i)%nat -> small_opts ps !! j <> Some (to_char c).

(** The descriptor that owns a match: the scanner either wrote a table index
    into the cell, or left the size of the collection there and the
    returned character is looked up in the short-code index. *)
Inductive owner (ps : list p_parameter_t) (c longindex : Z) : nat -> Prop :=
  | owner_long :
      to_size_t longindex <> Z.of_nat (length ps) ->
      owner ps c longindex (Z.to_nat (to_size_t longindex))
  | owner_short (i : nat) :
      to_size_t longindex = Z.of_nat (length ps) ->
      first_with_code ps c i ->
      owner ps c longindex i.

(** The machine after [k] turns of the loop that all matched an option and
    converted its value; [None] if the loop ended before. *)
Fixpoint run_turns (k : nat) (argc : Z) (optstring : string)
    (longopts : list struct_option) (so : list ascii) (m : machine)
    : option machine :=
  match k with
  | O => Some m
  | S k' =>
      match iteration argc optstring longopts so m with
      | (Continue, m') => run_turns k' argc optstring longopts so m'
      | _ => None
      end
  end.

(** The same within a call of [processOptions] entered with [m]. *)
Definition after_turns (k : nat) (argc : Z) (m : machine) : option machine :=
  let ps := parameters m in
  run_turns k argc (c_str (ss_str ps)) (options ps) (small_opts ps) m.

(** What the scanner answers in the turn that starts at [mk], in a call
    entered with [m]. *)
Definition next_scan (argc : Z) (m mk : machine) : scan getopt_data :=
  let ps := parameters m in
  getopt_long argc (argv mk) (c_str (ss_str ps)) (options ps)
    (wrap_int (Z.of_nat (length (parameters mk)))) (data mk).

(** The machine a turn leaves when the scanner answered [r]. *)
Definition scanned (ps : list p_parameter_t) (r : scan getopt_data) : machine :=
  Build_machine ps (scan_argv r) (scan_data r).
End Vocabulary.

(** *** Shapes of text *)

Fixpoint all_chars (f : ascii -> bool) (s : string) : bool :=
  match s with
  | EmptyString => true
  | String c s' => f c && all_chars f s'
  end.

Definition is_sign_char (c : ascii) : bool := Ascii.eqb c "+" || Ascii.eqb c "-".

Definition is_sign_text (s : string) : bool :=
  match s with
  | EmptyString => true
  | String c EmptyString => is_sign_char c
  | _ => false
  end.

Definition head_in (f : ascii -> bool) (s : string) : bool :=
  match s with String c _ => f c | EmptyString => false end.

(** The text of [t] is white space [ws], then an optional sign [sg], then
    [rest]; white space and sign are taken as far as they go. *)
Definition splits (t ws sg rest : string) : Prop :=
  c_str t = ws +:+ sg +:+ rest /\
  all_chars Ascii.is_space ws = true /\
  is_sign_text sg = true /\
  (sg = EmptyString ->
   head_in (fun c => Ascii.is_space c || is_sign_char c) rest = false).

(** Whether a number starts here for the conversion of the given type. The
    other types do not read numbers. *)
Definition number_start (ty : p_type) (s : string) : bool :=
  match ty with
  | T_int => starts_with_digit s
  | T_float => float_start s
  | _ => true
  end.

(** The [what()] text of a failed numeric conversion. *)
Definition conversion_name (ty : p_type) : string :=
  match ty with T_float => "stof" | _ => "stoi" end.

(** "Strict base-10 integer" in the words of the specification: an optional
    sign and then decimal digits, nothing else. *)
Definition strict_base10 (s : string) : bool :=
  let '(_, r) := read_sign s in starts_with_digit r && all_chars is_digit r.

(** ** Output *)

(** The character of a decimal digit. *)
Definition digit_char (d : Z) : ascii := to_char (48 + d).

(** The decimal digits of a non-negative number, least significant first,
    as the stream's formatter produces them; [fuel] is the room for digits. *)
Fixpoint digits_le (fuel : nat) (n : Z) : list ascii :=
  match fuel with
  | O => []
  | S fuel' =>
      digit_char (n mod 10)
      :: (if n <? 10 then [] else digits_le fuel' (n / 10))
  end.

(** [os << n] for a non-negative [int]: it has at most ten digits. *)
Definition print_unsigned (n : Z) : string :=
  string_of_list_ascii (rev (digits_le 10 n)).

(** [os << z] for an [int], with the default flags. *)
Definition print_int (z : Z) : string :=
  if z <? 0 then String "-" (print_unsigned (- z)) else print_unsigned z.

(** [os << b] for a [bool] without [boolalpha]. *)
Definition print_bool (b : bool) : string := if b then "1" else "0".

(** [os << f] for a [float] is left to the platform. *)
Class FloatPrint `{FloatModel} : Type := {
  print_float : float -> string
}.

(** The [operator <<] of the header for [plib::parameter_t<T>], given the
    stream's output of a [T]. *)
Definition print_parameter {T} (print_value : T -> string) (t : parameter_t T)
    : string :=
  l_name t +:+ " seen: " +:+ print_int (l_seen t) +:+ " value: "
    +:+ print_value (l_value t).

(** [std::endl]. *)
Definition endl : string := String "010" EmptyString.

(** The lambda [main] visits each descriptor with. *)
Definition print_descriptor `{FloatPrint} (p : p_parameter_t) : string :=
  match p with
  | p_bool arg => print_parameter print_bool arg +:+ endl
  | p_int arg => print_parameter print_int arg +:+ endl
  | p_float arg => print_parameter print_float arg +:+ endl
  | p_string arg => print_parameter (fun s => s) arg +:+ endl
  end.

(** ** The function [main] *)

Definition residual_message : string :=
  "main reads argv outside the argument vector".

(** How [main] ends: it returns, an exception is not caught, or the model
    stops for lack of fuel. *)
Inductive ending : Type :=
  | Exits (code : Z)
  | Uncaught (e : failure)
  | Running.

Section Main.
Context `{FP : FloatPrint} `{G : Getopt}.

(** [for (auto p: parameter)], one line for each descriptor. *)
Fixpoint print_descriptors (ps : list p_parameter_t) : string :=
  match ps with
  | [] => EmptyString
  | p :: ps' => print_descriptor p +:+ print_descriptors ps'
  end.

(** [while (optRes.second < argc)], for the [n] turns it makes from [i]. *)
Fixpoint residual_arguments (n : nat) (argv_ : list string) (i : Z)
    : outcome string :=
  match n with
  | O => Returns EmptyString
  | S n' =>
      if i <? 0 then Throws (undefined_behaviour residual_message)
      else
        match argv_ !! Z.to_nat i with
        | None => Throws (undefined_behaviour residual_message)
        | Some a =>
            match residual_arguments n' argv_ (i + 1) with
            | Returns s => Returns (" '" +:+ a +:+ "'" +:+ s)
            | Throws e => Throws e
            end
        end
  end.

(** The loop of [main]; [passes] bounds its turns and [fuel] those of each
    call of [processOptions]. The text is what has been written to
    [std::cout]. *)
Fixpoint main_loop (passes fuel : nat) (argc : Z) (m : machine) (out : string)
    : ending * string :=
  match passes with
  | O => (Running, out)
  | S passes' =>
      match processOptions fuel argc m with
      | (Unfinished, _) => (Running, out)
      | (Thrown e, _) => (Uncaught e, out)
      | (Returned (state, second), m') =>
          let out := out +:+ print_descriptors (parameters m')
                         +:+ String "010" "Residual arguments:" in
          match residual_arguments (Z.to_nat (argc - second)) (argv m') second with
          | Throws e => (Uncaught e, out)
          | Returns s =>
              let out := out +:+ s +:+ endl in
              match state with
              | NoMoreArgs => (Exits 0, out)
              | PauseArgsProcessing => main_loop passes' fuel argc m' out
              end
          end
      end
  end.

(** [main(argc, argv)] in a process whose scanner state is [d]; the vector
    of descriptors is the global [ps]. *)
Definition main (passes fuel : nat) (ps : list p_parameter_t) (argc : Z)
    (argv_ : list string) (d : getopt_data) : ending * string :=
  main_loop passes fuel argc (Build_machine ps argv_ d)
    ("Hello, World!" +:+ endl).
End Main.

(** Printing for the stand-in floats: the text the value was read from. *)
#[export] Instance text_float_print : FloatPrint :=
  {| print_float := fun f =>
       match f with
       | float_int z => print_int z
       | float_text s => s
       end |}.

(** ** More vocabulary *)

Section Counting.
Context `{FM : FloatModel}.

(** The sum of the occurrence counts of a collection. *)
Fixpoint total_seen (ps : list p_parameter_t) : Z :=
  match ps with
  | [] => 0
  | p :: ps' => p_seen p + total_seen ps'
  end.

(** A presence flag: a bool descriptor that takes no argument. *)
Definition is_flag (p : p_parameter_t) : bool :=
  match p with
  | p_bool arg => is_no_argument (l_has_arg arg)
  | _ => false
  end.

(** A flag whose value is true exactly when it has been seen. *)
Definition flag_shows_seen (p : p_parameter_t) : Prop :=
  is_flag p = true -> (p_current p = v_bool true <-> 0 < p_seen p).

(** How a call may change a descriptor: the count does not go down, a
    descriptor with the same count is the same descriptor, and a flag that
    showed whether it was seen still does. *)
Definition grown (p p' : p_parameter_t) : Prop :=
  p_seen p <= p_seen p' /\
  (p_seen p' = p_seen p -> p' = p) /\
  (flag_shows_seen p -> flag_shows_seen p').

(** Counts that [fuel] more matches cannot take out of the [int] range. *)
Definition counts_fit (ps : list p_parameter_t) (fuel : nat) : Prop :=
  Forall (fun p => 0 <= p_seen p) ps /\
  total_seen ps + Z.of_nat fuel <= INT_MAX.
End Counting.

(** The text [s] has no NUL character. *)
Definition no_nul (s : string) : bool :=
  all_chars (fun c => negb (Ascii.eqb c zero)) s.

(** A text in single quotes after a space, as [main] writes a residual
    argument. *)
Definition quoted (a : string) : string := " '" +:+ a +:+ "'".

Fixpoint concat_strings (l : list string) : string :=
  match l with
  | [] => EmptyString
  | s :: l' => s +:+ concat_strings l'
  end.

(** ** The scanner's progress through the command line *)

(** The characters of the current element that the scanner has still to
    read as short options (the length of [nextchar]). *)
Definition pending (d : Glibc.getopt_data) : nat :=
  match Glibc.nextchar d with
  | Some s => String.length s
  | None => 0%nat
  end.

(** A scanner state from which a call can be made: [optind] lies inside the
    command line, and an element that is partly read is an element of it. *)
Definition scanning (argc : Z) (d : Glibc.getopt_data) : Prop :=
  1 <= Glibc.optind d <= argc /\
  (Glibc.initialized d = true -> (0 < pending d)%nat -> Glibc.optind d < argc).

(** The scanner stands between two elements. *)
Definition between (d : Glibc.getopt_data) : bool :=
  negb (Glibc.initialized d) || Nat.eqb (pending d) 0.

(** What is left to scan: twice the number of elements from [optind] on,
    plus one when the scanner has not entered the element at [optind]. *)
Definition rank (argc : Z) (d : Glibc.getopt_data) : nat :=
  (2 * Z.to_nat (argc - Glibc.optind d) + (if between d then 1 else 0))%nat.

(** [d'] is closer to the end of the command line than [d]. *)
Definition closer (argc : Z) (d d' : Glibc.getopt_data) : Prop :=
  (rank argc d' < rank argc d)%nat \/
  (rank argc d' = rank argc d /\ (pending d' < pending d)%nat).

(** * Properties *)

(** ** Text *)

Lemma skip_space_blanks (ws s : string) :
  all_chars Ascii.is_space ws = true -> skip_space (ws +:+ s) = skip_space s.
Proof.
  induction ws as [|c ws IH]; simpl; [reflexivity|].
  intros Hc. apply andb_prop in Hc as [Hc Hws].
  rewrite Hc. auto.
Qed.

Lemma skip_space_stop (s : string) :
  head_in Ascii.is_space s = false -> skip_space s = s.
Proof.
  destruct s as [|c s]; simpl; [reflexivity|].
  intros ->. reflexivity.
Qed.

Lemma is_sign_text_cases (sg : string) :
  is_sign_text sg = true -> sg = EmptyString \/ sg = "+" \/ sg = "-".
Proof.
  destruct sg as [|c [|d sg]]; simpl; try discriminate; auto.
  unfold is_sign_char. intros Hc. apply orb_prop in Hc as [Hc|Hc];
    apply Ascii.eqb_eq in Hc; subst; auto.
Qed.

Lemma splits_skip_space (t ws sg rest : string) :
  splits t ws sg rest -> skip_space (c_str t) = sg +:+ rest.
Proof.
  intros (Ht & Hws & Hsg & Hmax). rewrite Ht, skip_space_blanks by assumption.
  apply skip_space_stop.
  destruct (is_sign_text_cases sg Hsg) as [->|[->| ->]]; simpl; try reflexivity.
  specialize (Hmax eq_refl). destruct rest as [|c rest]; simpl in *; [reflexivity|].
  apply orb_false_elim in Hmax as [Hc _]. exact Hc.
Qed.

Lemma splits_read_sign (t ws sg rest : string) :
  splits t ws sg rest ->
  read_sign (sg +:+ rest) = (String.eqb sg "-", rest).
Proof.
  intros (_ & _ & Hsg & Hmax).
  destruct (is_sign_text_cases sg Hsg) as [->|[->| ->]]; simpl; try reflexivity.
  specialize (Hmax eq_refl). destruct rest as [|c rest]; simpl in *; [reflexivity|].
  apply orb_false_elim in Hmax as [_ Hc]. unfold is_sign_char in Hc.
  apply orb_false_elim in Hc as [Hplus Hminus].
  apply Ascii.eqb_neq in Hplus, Hminus. unfold read_sign.
  destruct c as [[] [] [] [] [] [] [] []]; try reflexivity; congruence.
Qed.

Lemma digit_run_digits (ds rest : string) :
  all_chars is_digit ds = true -> starts_with_digit rest = false ->
  digit_run (ds +:+ rest) = list_ascii_of_string ds.
Proof.
  intros Hds Hrest. induction ds as [|c ds IH]; simpl in *.
  - destruct rest as [|c rest]; simpl in *; [reflexivity|]. now rewrite Hrest.
  - apply andb_prop in Hds as [Hc Hds]. rewrite Hc. f_equal. auto.
Qed.

Lemma digit_run_none (s : string) :
  starts_with_digit s = false -> digit_run s = [].
Proof. destruct s as [|c s]; simpl; [reflexivity|]. now intros ->. Qed.

Lemma existsb_nonzero (ds : string) :
  existsb (fun c => negb (Ascii.eqb c "0")) (list_ascii_of_string ds)
  = negb (all_chars (fun c => Ascii.eqb c "0") ds).
Proof.
  induction ds as [|c ds IH]; simpl; [reflexivity|].
  rewrite IH. now destruct (Ascii.eqb c "0").
Qed.

(** A text in which [strtol] finds no digit after white space and sign. *)
Lemma strtol10_no_number (t ws sg rest : string) :
  splits t ws sg rest -> starts_with_digit rest = false ->
  strtol10 (c_str t) = None.
Proof.
  intros Hs Hd. unfold strtol10.
  rewrite (splits_skip_space _ _ _ _ Hs), (splits_read_sign _ _ _ _ Hs).
  now rewrite digit_run_none.
Qed.

Lemma strtof_no_number (t ws sg rest : string) :
  splits t ws sg rest -> float_start rest = false ->
  strtof_converts (c_str t) = false.
Proof.
  intros Hs Hd. unfold strtof_converts.
  now rewrite (splits_skip_space _ _ _ _ Hs), (splits_read_sign _ _ _ _ Hs).
Qed.

(** X3. A text with a number at its head converts to that number, whatever
    follows it: leading white space and a sign are accepted, the digits are
    read in base ten, and the value is returned if it fits an [int] and
    [std::out_of_range] is thrown otherwise. *)
Lemma stoi_leading_number (t ws sg ds rest : string) :
  splits t ws sg (ds +:+ rest) ->
  all_chars is_digit ds = true ->
  ds <> EmptyString ->
  starts_with_digit rest = false ->
  let n := digits_value (list_ascii_of_string ds) in
  let v := if String.eqb sg "-" then - n else n in
  stoi t = if in_int_range v then Returns v else Throws (out_of_range "stoi").
Proof.
  intros Hs Hds Hne Hrest n v. unfold stoi, strtol10.
  rewrite (splits_skip_space _ _ _ _ Hs), (splits_read_sign _ _ _ _ Hs).
  rewrite (digit_run_digits _ _ Hds Hrest).
  destruct ds as [|c ds]; [congruence|]. reflexivity.
Qed.

Example stoi_trailing_text : stoi "  +12abc" = Returns 12.
Proof. reflexivity. Qed.

Example stoi_too_large : stoi "2147483648" = Throws (out_of_range "stoi").
Proof. reflexivity. Qed.

Example stoi_smallest : stoi "-2147483648" = Returns INT_MIN.
Proof. reflexivity. Qed.

Example stof_word : stof "abc" = Throws (invalid_argument "stof").
Proof. reflexivity. Qed.

(** ** The demonstration program on some command lines *)

(** The table of [main.cpp] gives the option string ["es:p:f:"]. *)
Example parameter_option_string : c_str (ss_str parameter) = "es:p:f:".
Proof. reflexivity. Qed.

(** Long options with separate arguments, one of each type. *)
Example typed_options :
  main_call 4 ["prog"; "--start"; "42"; "--pi"; "3.5"; "--file"; "out.txt"]
  = (Returned (NoMoreArgs, 7),
     Build_machine
       [ p_bool (new_parameter "enable" has_no_argument (of_char "e"));
         p_int (Build_parameter "start" has_requred_argument (of_char "s")
                  0 1 false 42);
         p_float (Build_parameter "pi" has_requred_argument (of_char "p")
                    0 1 false (float_text "3.5"));
         p_string (Build_parameter "file" has_requred_argument (of_char "f")
                     0 1 false "out.txt") ]
       ["prog"; "--start"; "42"; "--pi"; "3.5"; "--file"; "out.txt"]
       (Glibc.Build_data 7 None 63 true None Glibc.PERMUTE 7 7 false)).
Proof. reflexivity. Qed.

(** Options after operands: the scanner moves the operands to the end, and
    a cluster of short options with an attached argument is read letter by
    letter. *)
Example permuted_operands :
  fst (main_call 5 ["prog"; "a"; "-e"; "b"; "-es9"; "--fi=x"])
    = Returned (NoMoreArgs, 4) /\
  argv (snd (main_call 5 ["prog"; "a"; "-e"; "b"; "-es9"; "--fi=x"]))
    = ["prog"; "-e"; "-es9"; "--fi=x"; "a"; "b"] /\
  p_seen <$> parameters (snd (main_call 5 ["prog"; "a"; "-e"; "b"; "-es9"; "--fi=x"]))
    = [2; 1; 0; 1].
Proof. repeat split; reflexivity. Qed.

(** ** The conversion layer *)

(** C3. Converting an absent token gives the no-argument default for bool
    (true), int (zero) and float (zero), but not for string: the string
    conversion has no null test and builds a [std::string] from the null
    pointer instead of returning the empty string. The dispatcher reaches
    that case whenever a string option matches without a text, here [-n]
    for a string option declared with no argument. *)
Theorem converter_absent_token :
  @converter bool _ None = Returns converter0 /\
  @converter Z _ None = Returns converter0 /\
  (forall FM : FloatModel, @converter float _ None = Returns converter0) /\
  @converter string _ None
    = Throws (undefined_behaviour "std::string constructed from a null pointer") /\
  @converter string _ None <> Returns converter0 /\
  fst (processOptions 2 2 (Build_machine name_flag ["prog"; "-n"] Glibc.start))
    = Thrown (undefined_behaviour "std::string constructed from a null pointer").
Proof.
  repeat split; try reflexivity. discriminate.
Qed.

(** C4, the claim fails: the token "0" converts to false. *)
Lemma converter_bool_zero_token : converter_bool (Some "0") <> Returns true.
Proof. discriminate. Qed.

(** C4 as amended. The boolean conversion yields true for an absent token.
    A text token is not ignored: it is read as a decimal integer, and the
    result is true exactly when the digits read, after leading white space
    and an optional sign, are not all zero. A token without digits in that
    place (such as "false") and the token "0" yield false. The token must
    hold something besides white space. *)
Theorem converter_bool_reads_token :
  converter_bool None = Returns true /\
  forall t ws sg ds rest : string,
    splits t ws sg (ds +:+ rest) ->
    all_chars is_digit ds = true ->
    starts_with_digit rest = false ->
    sg +:+ ds +:+ rest <> EmptyString ->
    converter_bool (Some t)
    = Returns (negb (all_chars (fun c => Ascii.eqb c "0") ds)).
Proof.
  split; [reflexivity|].
  intros t ws sg ds rest Hs Hds Hrest Hne. unfold converter_bool, extract_bool.
  rewrite (splits_skip_space _ _ _ _ Hs).
  destruct (sg +:+ ds +:+ rest) as [|c s] eqn:E; [congruence|].
  rewrite <- E, (splits_read_sign _ _ _ _ Hs).
  now rewrite digit_run_digits, existsb_nonzero.
Qed.

Lemma converter_bool_reads_token_witness :
  converter_bool (Some "false") = Returns false /\
  converter_bool (Some " -10") = Returns true.
Proof.
  split.
  - apply (proj2 converter_bool_reads_token "false" "" "" "" "false");
      [repeat split; try reflexivity; discriminate | reflexivity | reflexivity
      | discriminate].
  - apply (proj2 converter_bool_reads_token " -10" " " "-" "10" "");
      [repeat split; try reflexivity; discriminate | reflexivity | reflexivity
      | discriminate].
Defined.

(** ** The dispatcher *)

Section DispatcherFacts.
Context `{FM : FloatModel} `{G : Getopt}.

(** *** The visited lambda *)

Lemma on_match_cases {T} `{Converter T} (optarg_ : option string) (arg : parameter_t T) :
  on_match optarg_ arg
  = match converter (if is_no_argument (l_has_arg arg) then None else optarg_) with
    | Returns v => (set_value v (set_seen (wrap_int (l_seen arg + 1)) arg), None)
    | Throws e => (set_seen (wrap_int (l_seen arg + 1)) arg, Some e)
    end.
Proof.
  unfold on_match, convert. cbn [set_seen l_has_arg].
  now destruct (is_no_argument (l_has_arg arg)).
Qed.

Ltac visit_cases p :=
  destruct p as [a|a|a|a]; unfold visit_match; rewrite on_match_cases;
  unfold p_convert, passed_text, p_has_arg; cbn [visit converter
    Converter_bool Converter_int Converter_float Converter_string];
  match goal with
  | |- context [converter_bool ?t] => destruct (converter_bool t)
  | |- context [converter_int ?t] => destruct (converter_int t)
  | |- context [converter_float ?t] => destruct (converter_float t)
  | |- context [converter_string ?t] => destruct (converter_string t)
  end.

Lemma visit_match_declaration (optarg_ : option string) (p : p_parameter_t) :
  declaration (fst (visit_match optarg_ p)) = declaration p.
Proof. visit_cases p; reflexivity. Qed.

Lemma visit_match_seen (optarg_ : option string) (p : p_parameter_t) :
  p_seen (fst (visit_match optarg_ p)) = wrap_int (p_seen p + 1).
Proof. visit_cases p; reflexivity. Qed.

Lemma visit_match_returns (optarg_ : option string) (p : p_parameter_t) (v : p_value) :
  p_convert p (passed_text p optarg_) = Returns v ->
  snd (visit_match optarg_ p) = None /\
  p_current (fst (visit_match optarg_ p)) = v.
Proof. visit_cases p; intros [= <-]; auto. Qed.

Lemma visit_match_throws (optarg_ : option string) (p : p_parameter_t) (e : failure) :
  p_convert p (passed_text p optarg_) = Throws e ->
  snd (visit_match optarg_ p) = Some e /\
  p_current (fst (visit_match optarg_ p)) = p_current p.
Proof. visit_cases p; intros [= <-]; auto. Qed.

(** *** Machine integers *)

Lemma wrap_int_id (z : Z) : int_range z -> wrap_int z = z.
Proof.
  unfold int_range, INT_MIN, INT_MAX, wrap_int. intros Hz.
  rewrite Z.mod_small; lia.
Qed.

Lemma to_size_t_id (z : Z) : 0 <= z <= INT_MAX -> to_size_t z = z.
Proof.
  unfold INT_MAX, to_size_t. intros Hz. rewrite Z.mod_small; lia.
Qed.

Lemma index_round_trip (i : nat) :
  Z.of_nat i <= INT_MAX -> Z.to_nat (to_size_t (wrap_int (Z.of_nat i))) = i.
Proof.
  intros Hi. rewrite wrap_int_id, to_size_t_id, Nat2Z.id; try reflexivity;
    unfold int_range, INT_MIN, INT_MAX in *; lia.
Qed.

(** *** Resolving a match *)

Lemma first_with_code_find (ps : list p_parameter_t) (c : Z) (i : nat) :
  first_with_code ps c i -> find_small_opt (small_opts ps) c = Some i.
Proof.
  intros [Hi Hmin]. unfold find_small_opt.
  assert (list_find (fun x => x = to_char c) (small_opts ps) = Some (i, to_char c)) as ->.
  { apply list_find_Some. repeat split; [assumption|].
    intros j y Hj Hlt ->. exact (Hmin j Hlt Hj). }
  reflexivity.
Qed.

Lemma find_first_with_code (ps : list p_parameter_t) (c : Z) (i : nat) :
  find_small_opt (small_opts ps) c = Some i -> first_with_code ps c i.
Proof.
  unfold find_small_opt. intros Hf.
  destruct (list_find _ _) as [[j x]|] eqn:E; simpl in Hf; [|discriminate].
  injection Hf as ->. apply list_find_Some in E as (Hi & -> & Hmin).
  split; [assumption|]. intros j Hlt Hj. exact (Hmin j _ Hj Hlt eq_refl).
Qed.

Lemma small_opts_length (ps : list p_parameter_t) :
  length (small_opts ps) = length ps.
Proof. unfold small_opts. apply length_fmap. Qed.

Lemma owner_resolve (ps : list p_parameter_t) (c longindex : Z) (i : nat) :
  owner ps c longindex i ->
  Z.of_nat (length ps) <= INT_MAX ->
  exists oi, resolve (small_opts ps) (length ps) c longindex = Returns oi /\
             Z.to_nat (to_size_t oi) = i.
Proof.
  intros Ho Hlen. unfold resolve. destruct Ho as [Hne|i Heq Hfirst].
  - apply Z.eqb_neq in Hne. rewrite Hne. eauto.
  - apply Z.eqb_eq in Heq. rewrite Heq, (first_with_code_find _ _ _ Hfirst).
    eexists; split; [reflexivity|]. apply index_round_trip.
    destruct Hfirst as [Hi _]. apply lookup_lt_Some in Hi.
    rewrite small_opts_length in Hi. lia.
Qed.

(** *** One turn *)

Lemma iteration_break (argc : Z) (optstring : string)
    (longopts : list struct_option) (so : list ascii) (m : machine) :
  let r := getopt_long argc (argv m) optstring longopts
             (wrap_int (Z.of_nat (length (parameters m)))) (data m) in
  scan_c r = -1 ->
  iteration argc optstring longopts so m
  = (Break (NoMoreArgs, optind (scan_data r)), scanned (parameters m) r).
Proof.
  intros r Hc. unfold iteration. fold r. rewrite Hc. reflexivity.
Qed.

Lemma iteration_match (argc : Z) (optstring : string)
    (longopts : list struct_option) (so : list ascii) (m : machine)
    (oi : Z) (p : p_parameter_t) :
  let r := getopt_long argc (argv m) optstring longopts
             (wrap_int (Z.of_nat (length (parameters m)))) (data m) in
  let i := Z.to_nat (to_size_t oi) in
  let p' := fst (visit_match (optarg (scan_data r)) p) in
  0 < scan_c r ->
  resolve so (length (parameters m)) (scan_c r) (scan_longindex r) = Returns oi ->
  parameters m !! i = Some p ->
  iteration argc optstring longopts so m
  = (match snd (visit_match (optarg (scan_data r)) p) with
     | None => Continue
     | Some e => Throw e
     end, scanned (<[i := p']> (parameters m)) r).
Proof.
  intros r i p' Hc Hres Hp. unfold iteration. fold r.
  assert ((scan_c r =? -1) = false) as -> by (apply Z.eqb_neq; lia).
  assert ((0 <? scan_c r) = true) as -> by (apply Z.ltb_lt; lia).
  rewrite Hres. fold i. rewrite Hp. subst p'.
  destruct (visit_match (optarg (scan_data r)) p) as [q [e|]]; reflexivity.
Qed.

Lemma iteration_not_defined (argc : Z) (optstring : string)
    (longopts : list struct_option) (so : list ascii) (m : machine) (e : failure) :
  let r := getopt_long argc (argv m) optstring longopts
             (wrap_int (Z.of_nat (length (parameters m)))) (data m) in
  0 < scan_c r ->
  resolve so (length (parameters m)) (scan_c r) (scan_longindex r) = Throws e ->
  iteration argc optstring longopts so m = (Throw e, scanned (parameters m) r).
Proof.
  intros r Hc Hres. unfold iteration. fold r.
  assert ((scan_c r =? -1) = false) as -> by (apply Z.eqb_neq; lia).
  assert ((0 <? scan_c r) = true) as -> by (apply Z.ltb_lt; lia).
  now rewrite Hres.
Qed.

(** *** What a call leaves untouched *)

Lemma same_declarations_refl (ps : list p_parameter_t) : same_declarations ps ps.
Proof. apply Forall_Forall2_diag, Forall_forall. reflexivity. Qed.

Lemma same_declarations_trans (ps1 ps2 ps3 : list p_parameter_t) :
  same_declarations ps1 ps2 -> same_declarations ps2 ps3 ->
  same_declarations ps1 ps3.
Proof.
  unfold same_declarations. intros H12. revert ps3.
  induction H12 as [|p q ps qs Hpq _ IH]; intros ps3 H23; inversion H23; subst;
    constructor; [congruence | auto].
Qed.

Lemma same_declarations_insert (ps : list p_parameter_t) (i : nat)
    (p p' : p_parameter_t) :
  ps !! i = Some p -> declaration p' = declaration p ->
  same_declarations ps (<[i := p']> ps).
Proof.
  intros Hp Hd. unfold same_declarations.
  rewrite <- (list_insert_id ps i p Hp) at 1.
  apply Forall2_insert; [apply same_declarations_refl | assumption].
Qed.

Lemma iteration_declarations (argc : Z) (optstring : string)
    (longopts : list struct_option) (so : list ascii) (m : machine) :
  same_declarations (parameters m)
    (parameters (snd (iteration argc optstring longopts so m))).
Proof.
  unfold iteration.
  repeat match goal with
  | |- context [if ?b then _ else _] => destruct b
  | |- context [match resolve ?a ?b ?c ?d with _ => _ end] => destruct (resolve a b c d)
  | |- context [match ?l !! ?i with _ => _ end] => destruct (l !! i) eqn:Hp
  end; simpl; try apply same_declarations_refl.
  pose proof (visit_match_declaration
    (optarg (scan_data (getopt_long argc (argv m) optstring longopts
       (wrap_int (Z.of_nat (length (parameters m)))) (data m)))) p) as Hd.
  destruct (visit_match _ p) as [p' [e|]]; simpl in *;
    eapply same_declarations_insert; eauto.
Qed.

Lemma scan_loop_declarations (fuel : nat) (argc : Z) (optstring : string)
    (longopts : list struct_option) (so : list ascii) (m : machine) :
  same_declarations (parameters m)
    (parameters (snd (scan_loop fuel argc optstring longopts so m))).
Proof.
  revert m. induction fuel as [|fuel IH]; intros m; simpl.
  - apply same_declarations_refl.
  - pose proof (iteration_declarations argc optstring longopts so m) as Hit.
    destruct (iteration argc optstring longopts so m) as [[r| |e] m']; simpl in *;
      try assumption.
    eapply same_declarations_trans; [exact Hit | apply IH].
Qed.

Lemma run_turns_declarations (k : nat) (argc : Z) (optstring : string)
    (longopts : list struct_option) (so : list ascii) (m mk : machine) :
  run_turns k argc optstring longopts so m = Some mk ->
  same_declarations (parameters m) (parameters mk).
Proof.
  revert m. induction k as [|k IH]; intros m; simpl.
  - intros [= <-]. apply same_declarations_refl.
  - pose proof (iteration_declarations argc optstring longopts so m) as Hit.
    destruct (iteration argc optstring longopts so m) as [[r| |e] m']; simpl in *;
      try discriminate.
    intros Hk. eapply same_declarations_trans; [exact Hit | eauto].
Qed.

(** The tables built from a collection depend on the declarations only. *)
Lemma same_declarations_tables (ps ps' : list p_parameter_t) :
  same_declarations ps ps' ->
  length ps' = length ps /\
  options ps' = options ps /\
  small_opts ps' = small_opts ps /\
  ss_str ps' = ss_str ps.
Proof.
  unfold options, small_opts.
  induction 1 as [|p p' ps ps' Hd _ (Hlen & Hopt & Hso & Hss)].
  - repeat split.
  - apply app_inv_tail in Hopt.
    injection Hd as Hty Hname Harg Hval Hflag Hinc.
    rewrite !fmap_cons. cbn [length ss_str].
    rewrite Hlen, Hopt, Hso, Hss. unfold long_option, short_entry.
    rewrite Hname, Harg, Hval. repeat split.
Qed.

(** *** Turns and the loop *)

Lemma run_turns_scan_loop (k n : nat) (argc : Z) (optstring : string)
    (longopts : list struct_option) (so : list ascii) (m mk : machine) :
  run_turns k argc optstring longopts so m = Some mk ->
  scan_loop (k + n) argc optstring longopts so m
  = scan_loop n argc optstring longopts so mk.
Proof.
  revert m. induction k as [|k IH]; intros m; simpl.
  - now intros [= <-].
  - destruct (iteration argc optstring longopts so m) as [[r| |e] m'];
      try discriminate. apply IH.
Qed.

(** A call that ends does so in the same way with any larger fuel. *)
Lemma scan_loop_more_fuel (fuel extra : nat) (argc : Z) (optstring : string)
    (longopts : list struct_option) (so : list ascii) (m : machine) :
  fst (scan_loop fuel argc optstring longopts so m) <> Unfinished ->
  scan_loop (fuel + extra) argc optstring longopts so m
  = scan_loop fuel argc optstring longopts so m.
Proof.
  revert m. induction fuel as [|fuel IH]; intros m; simpl.
  - congruence.
  - destruct (iteration argc optstring longopts so m) as [[r| |e] m'];
      auto.
Qed.

(** A call that has made [k] turns and whose next turn ends the loop ends
    the same way, whatever the fuel beyond [k]. *)
Lemma processOptions_after_turns (k fuel : nat) (argc : Z) (m mk : machine)
    (c : control) (m' : machine) :
  after_turns k argc m = Some mk ->
  iteration argc (c_str (ss_str (parameters m))) (options (parameters m))
    (small_opts (parameters m)) mk = (c, m') ->
  c <> Continue ->
  (k < fuel)%nat ->
  processOptions fuel argc m
  = (match c with
     | Break r => Returned r
     | Throw e => Thrown e
     | Continue => Unfinished
     end, m').
Proof.
  intros Hk Hit Hc Hlt. unfold processOptions.
  replace fuel with (k + S (fuel - S k))%nat by lia.
  rewrite (run_turns_scan_loop _ _ _ _ _ _ _ _ Hk). simpl. rewrite Hit.
  destruct c; congruence.
Qed.

Lemma after_turns_tables (k : nat) (argc : Z) (m mk : machine) :
  after_turns k argc m = Some mk ->
  length (parameters mk) = length (parameters m) /\
  options (parameters mk) = options (parameters m) /\
  small_opts (parameters mk) = small_opts (parameters m) /\
  ss_str (parameters mk) = ss_str (parameters m).
Proof.
  intros Hk. apply same_declarations_tables.
  exact (run_turns_declarations _ _ _ _ _ _ _ Hk).
Qed.

Lemma run_turns_snoc (k : nat) (argc : Z) (optstring : string)
    (longopts : list struct_option) (so : list ascii) (m mk m' : machine) :
  run_turns k argc optstring longopts so m = Some mk ->
  iteration argc optstring longopts so mk = (Continue, m') ->
  run_turns (S k) argc optstring longopts so m = Some m'.
Proof.
  revert m. induction k as [|k IH]; intros m.
  - intros [= <-] Hit. simpl. now rewrite Hit.
  - intros Hk Hit. change (run_turns (S (S k)) argc optstring longopts so m)
      with (match iteration argc optstring longopts so m with
            | (Continue, m1) => run_turns (S k) argc optstring longopts so m1
            | _ => None
            end).
    simpl in Hk.
    destruct (iteration argc optstring longopts so m) as [[r| |e] m1];
      try discriminate. now apply IH.
Qed.

(** The turn that starts at [mk] when the scanner reports a match owned by
    descriptor [i]: the descriptor is visited and written back in place. *)
Lemma owned_match_turn (k : nat) (argc : Z) (m mk : machine) (i : nat)
    (p : p_parameter_t) :
  let r := next_scan argc m mk in
  after_turns k argc m = Some mk ->
  0 < scan_c r ->
  owner (parameters mk) (scan_c r) (scan_longindex r) i ->
  Z.of_nat (length (parameters mk)) <= INT_MAX ->
  parameters mk !! i = Some p ->
  iteration argc (c_str (ss_str (parameters m))) (options (parameters m))
    (small_opts (parameters m)) mk
  = (match snd (visit_match (optarg (scan_data r)) p) with
     | None => Continue
     | Some e => Throw e
     end,
     scanned (<[i := fst (visit_match (optarg (scan_data r)) p)]> (parameters mk)) r).
Proof.
  intros r Hk Hc Ho Hlen Hp.
  destruct (after_turns_tables _ _ _ _ Hk) as (_ & _ & Hso & _).
  destruct (owner_resolve _ _ _ _ Ho Hlen) as (oi & Hres & Hi).
  rewrite <- Hso. subst r. unfold next_scan in *.
  rewrite <- Hi. apply iteration_match; [assumption | exact Hres | now rewrite Hi].
Qed.

(** *** Claims about the dispatcher *)

(** The loop ends when the scanner returns -1, with the scanner's [optind]. *)
Lemma exhaustion_returns (k fuel : nat) (argc : Z) (m mk : machine) :
  let r := next_scan argc m mk in
  after_turns k argc m = Some mk ->
  scan_c r = -1 ->
  (k < fuel)%nat ->
  processOptions fuel argc m
  = (Returned (NoMoreArgs, optind (scan_data r)), scanned (parameters mk) r).
Proof.
  intros r Hk Hc Hlt.
  apply (processOptions_after_turns k fuel argc m mk
           (Break (NoMoreArgs, optind (scan_data r)))); try assumption.
  - apply iteration_break. exact Hc.
  - discriminate.
Qed.

(** C7. In a turn where the scanner reports a match and the conversion
    succeeds, the match is resolved to its owner (the index written by the
    scanner for a long option, the first position of the returned character
    in the short-code index otherwise); that descriptor's count grows by
    one, its value becomes what the conversion layer returns for the passed
    text (the scanner's [optarg], or no text under the no-argument policy),
    its declaration is kept, no other descriptor changes, and the loop goes
    on with the next turn. *)
Theorem match_updates_owner (k : nat) (argc : Z) (m mk : machine) (i : nat)
    (p : p_parameter_t) (v : p_value) :
  let r := next_scan argc m mk in
  after_turns k argc m = Some mk ->
  0 < scan_c r ->
  owner (parameters mk) (scan_c r) (scan_longindex r) i ->
  Z.of_nat (length (parameters mk)) <= INT_MAX ->
  parameters mk !! i = Some p ->
  INT_MIN <= p_seen p < INT_MAX ->
  p_convert p (passed_text p (optarg (scan_data r))) = Returns v ->
  exists p',
    after_turns (S k) argc m = Some (scanned (<[i := p']> (parameters mk)) r) /\
    (forall fuel,
       processOptions (S k + fuel) argc m
       = scan_loop fuel argc (c_str (ss_str (parameters m)))
           (options (parameters m)) (small_opts (parameters m))
           (scanned (<[i := p']> (parameters mk)) r)) /\
    p_seen p' = p_seen p + 1 /\
    p_current p' = v /\
    declaration p' = declaration p.
Proof.
  intros r Hk Hc Ho Hlen Hp Hseen Hv.
  exists (fst (visit_match (optarg (scan_data r)) p)).
  destruct (visit_match_returns _ _ _ Hv) as [He Hcur].
  assert (after_turns (S k) argc m
          = Some (scanned (<[i := fst (visit_match (optarg (scan_data r)) p)]>
                             (parameters mk)) r)) as Hnext.
  { eapply run_turns_snoc; [exact Hk|].
    rewrite (owned_match_turn k argc m mk i p Hk Hc Ho Hlen Hp).
    fold r. now rewrite He. }
  repeat split.
  - exact Hnext.
  - intros fuel. unfold processOptions.
    exact (run_turns_scan_loop _ _ _ _ _ _ _ _ Hnext).
  - rewrite visit_match_seen. apply wrap_int_id.
    unfold int_range, INT_MIN, INT_MAX in *. lia.
  - exact Hcur.
  - apply visit_match_declaration.
Qed.

(** C8. Whatever way a call ends, the collection keeps its length and order,
    and every descriptor keeps its type, name, short code and argument
    policy (and the two fields the dispatcher never reads); only counts and
    values can differ. The tables a later call builds from the collection
    are therefore the ones this call built: nothing of the dispatcher's own
    survives the call. *)
Theorem processOptions_frame (fuel : nat) (argc : Z) (m : machine) :
  let ps := parameters m in
  let ps' := parameters (snd (processOptions fuel argc m)) in
  length ps' = length ps /\
  (forall i p, ps !! i = Some p ->
     exists p', ps' !! i = Some p' /\
       p_type_of p' = p_type_of p /\
       p_name p' = p_name p /\
       p_val p' = p_val p /\
       p_has_arg p' = p_has_arg p /\
       p_flag p' = p_flag p /\
       p_incomplete_conv p' = p_incomplete_conv p) /\
  options ps' = options ps /\
  small_opts ps' = small_opts ps /\
  ss_str ps' = ss_str ps.
Proof.
  intros ps ps'.
  assert (same_declarations ps ps') as Hsame
    by apply scan_loop_declarations.
  destruct (same_declarations_tables _ _ Hsame) as (Hlen & Hopt & Hso & Hss).
  repeat split; try assumption.
  intros i p Hp.
  destruct (Forall2_lookup_l _ _ _ _ _ Hsame Hp) as (p' & Hp' & Hd).
  exists p'. injection Hd as Hty Hname Harg Hval Hflag Hinc. auto 10.
Qed.

(** C9. When the conversion of a matched option throws, the call ends with
    that exception; the descriptor that owns the match has its count
    already raised by one and still holds the value it had before the
    match, and the rest of the collection is as the earlier turns of the
    call left it. *)
Theorem conversion_failure_state (k fuel : nat) (argc : Z) (m mk : machine)
    (i : nat) (p : p_parameter_t) (e : failure) :
  let r := next_scan argc m mk in
  after_turns k argc m = Some mk ->
  0 < scan_c r ->
  owner (parameters mk) (scan_c r) (scan_longindex r) i ->
  Z.of_nat (length (parameters mk)) <= INT_MAX ->
  parameters mk !! i = Some p ->
  INT_MIN <= p_seen p < INT_MAX ->
  p_convert p (passed_text p (optarg (scan_data r))) = Throws e ->
  (k < fuel)%nat ->
  exists p',
    processOptions fuel argc m
    = (Thrown e, scanned (<[i := p']> (parameters mk)) r) /\
    p_seen p' = p_seen p + 1 /\
    p_current p' = p_current p /\
    declaration p' = declaration p.
Proof.
  intros r Hk Hc Ho Hlen Hp Hseen Hv Hlt.
  exists (fst (visit_match (optarg (scan_data r)) p)).
  destruct (visit_match_throws _ _ _ Hv) as [He Hcur].
  repeat split.
  - apply (processOptions_after_turns k fuel argc m mk (Throw e));
      try assumption; [|discriminate].
    rewrite (owned_match_turn k argc m mk i p Hk Hc Ho Hlen Hp).
    fold r. now rewrite He.
  - rewrite visit_match_seen. apply wrap_int_id.
    unfold int_range, INT_MIN, INT_MAX in *. lia.
  - exact Hcur.
  - apply visit_match_declaration.
Qed.

(** C10. When several descriptors carry the short code the scanner returns
    for a short option, the match goes to the earliest of them in the
    collection: in the machine the turn leaves, that descriptor has its
    count raised by one and holds the value the conversion layer returns
    for the passed text, with its declaration kept; a later descriptor [q]
    with the same code, and every other descriptor, is as the turn found
    it; and the call of [processOptions] goes on from that machine. *)
Theorem duplicate_short_code_first (k : nat) (argc : Z) (m mk : machine)
    (i j : nat) (p q : p_parameter_t) (v : p_value) :
  let r := next_scan argc m mk in
  let ps := parameters mk in
  after_turns k argc m = Some mk ->
  0 < scan_c r ->
  to_size_t (scan_longindex r) = Z.of_nat (length ps) ->
  Z.of_nat (length ps) <= INT_MAX ->
  ps !! i = Some p ->
  ps !! j = Some q ->
  to_char (p_val p) = to_char (scan_c r) ->
  to_char (p_val q) = to_char (scan_c r) ->
  (forall n p0, (n < i)%nat -> ps !! n = Some p0 ->
     to_char (p_val p0) <> to_char (scan_c r)) ->
  (i < j)%nat ->
  INT_MIN <= p_seen p < INT_MAX ->
  p_convert p (passed_text p (optarg (scan_data r))) = Returns v ->
  exists mk' p',
    after_turns (S k) argc m = Some mk' /\
    (forall fuel,
       processOptions (S k + fuel) argc m
       = scan_loop fuel argc (c_str (ss_str (parameters m)))
           (options (parameters m)) (small_opts (parameters m)) mk') /\
    argv mk' = scan_argv r /\
    data mk' = scan_data r /\
    length (parameters mk') = length ps /\
    parameters mk' !! i = Some p' /\
    p_seen p' = p_seen p + 1 /\
    p_current p' = v /\
    declaration p' = declaration p /\
    parameters mk' !! j = Some q /\
    (forall n, n <> i -> parameters mk' !! n = ps !! n).
Proof.
  intros r ps Hk Hc Hshort Hlen Hp Hq Hpc Hqc Hmin Hij Hseen Hv.
  assert (first_with_code ps (scan_c r) i) as Hfirst.
  { split.
    - unfold small_opts. rewrite list_lookup_fmap, Hp. simpl. now rewrite Hpc.
    - intros n Hn. unfold small_opts. rewrite list_lookup_fmap.
      destruct (ps !! n) as [p0|] eqn:Hp0; simpl; [|discriminate].
      intros [= Heq]. exact (Hmin n p0 Hn Hp0 Heq). }
  assert (owner ps (scan_c r) (scan_longindex r) i) as Ho
    by now apply owner_short.
  destruct (visit_match_returns _ _ _ Hv) as [He Hcur].
  set (p' := fst (visit_match (optarg (scan_data r)) p)) in *.
  assert (after_turns (S k) argc m = Some (scanned (<[i := p']> ps) r))
    as Hnext.
  { eapply run_turns_snoc; [exact Hk|].
    rewrite (owned_match_turn k argc m mk i p Hk Hc Ho Hlen Hp).
    fold r p'. now rewrite He. }
  exists (scanned (<[i := p']> ps) r), p'.
  split; [exact Hnext|].
  split.
  { intros fuel. unfold processOptions.
    exact (run_turns_scan_loop _ _ _ _ _ _ _ _ Hnext). }
  split; [reflexivity|]. split; [reflexivity|].
  cbn [scanned parameters].
  split; [apply length_insert|].
  split.
  { apply list_lookup_insert_eq. now apply lookup_lt_Some in Hp. }
  split.
  { subst p'. rewrite visit_match_seen. apply wrap_int_id.
    unfold int_range, INT_MIN, INT_MAX in *. lia. }
  split; [exact Hcur|].
  split; [apply visit_match_declaration|].
  split.
  - rewrite list_lookup_insert_ne by lia. exact Hq.
  - intros n Hn. now rewrite list_lookup_insert_ne.
Qed.

(** C1 as amended. When the scanner meets an option that is not declared it
    returns the character [?] and writes no table index. If no descriptor
    has that character as its short code, the call ends with the
    [std::invalid_argument] the dispatcher throws for any returned character
    that is missing from the short-code index, with the character quoted in
    its text; the collection is left as the earlier turns made it. There is
    no exception of its own for an unrecognized option. *)
Theorem undeclared_key_error (k fuel : nat) (argc : Z) (m mk : machine) :
  let r := next_scan argc m mk in
  let ps := parameters mk in
  after_turns k argc m = Some mk ->
  0 < scan_c r ->
  to_size_t (scan_longindex r) = Z.of_nat (length ps) ->
  (forall n p, ps !! n = Some p -> to_char (p_val p) <> to_char (scan_c r)) ->
  (k < fuel)%nat ->
  processOptions fuel argc m
  = (Thrown (invalid_argument (not_defined_message (to_char (scan_c r)))),
     scanned ps r).
Proof.
  intros r ps Hk Hc Hshort Habsent Hlt.
  destruct (after_turns_tables _ _ _ _ Hk) as (_ & _ & Hso & _).
  assert (resolve (small_opts (parameters m)) (length ps) (scan_c r)
            (scan_longindex r)
          = Throws (short_option_not_defined (scan_c r))) as Hres.
  { unfold resolve. apply Z.eqb_eq in Hshort. rewrite Hshort, <- Hso. fold ps.
    destruct (find_small_opt (small_opts ps) (scan_c r)) as [n|] eqn:Hfind;
      [|reflexivity].
    apply find_first_with_code in Hfind as [Hn _]. unfold small_opts in Hn.
    rewrite list_lookup_fmap in Hn.
    destruct (ps !! n) as [p|] eqn:Hp; simpl in Hn; [|discriminate].
    injection Hn as Hn. now destruct (Habsent n p Hp). }
  apply (processOptions_after_turns k fuel argc m mk
           (Throw (short_option_not_defined (scan_c r)))); try assumption;
    [|discriminate].
  apply iteration_not_defined; [exact Hc | exact Hres].
Qed.

(** C5 as amended. When an int or float descriptor whose policy takes an
    argument is matched with a text in which no number can be read (after
    leading white space and an optional sign the text does not start a
    number, as in "abc"), the conversion throws [std::invalid_argument] and
    the exception leaves [processOptions]. A text that starts with a number
    is converted from that number, whatever follows it. *)
Theorem malformed_number_propagates (k fuel : nat) (argc : Z) (m mk : machine)
    (i : nat) (p : p_parameter_t) (t ws sg rest : string) :
  let r := next_scan argc m mk in
  after_turns k argc m = Some mk ->
  0 < scan_c r ->
  owner (parameters mk) (scan_c r) (scan_longindex r) i ->
  Z.of_nat (length (parameters mk)) <= INT_MAX ->
  parameters mk !! i = Some p ->
  p_type_of p = T_int \/ p_type_of p = T_float ->
  p_has_arg p <> has_no_argument ->
  optarg (scan_data r) = Some t ->
  splits t ws sg rest ->
  number_start (p_type_of p) rest = false ->
  (k < fuel)%nat ->
  fst (processOptions fuel argc m)
  = Thrown (invalid_argument (conversion_name (p_type_of p))).
Proof.
  intros r Hk Hc Ho Hlen Hp Hty Harg Ht Hs Hnum Hlt.
  assert (snd (visit_match (optarg (scan_data r)) p)
          = Some (invalid_argument (conversion_name (p_type_of p)))) as He.
  { apply visit_match_throws. rewrite Ht. unfold passed_text.
    destruct (p_has_arg p) eqn:Hpol; [congruence| |];
      destruct p as [a|a|a|a]; simpl in Hty, Hnum |- *;
      try (destruct Hty; discriminate);
      unfold stoi, stof;
      rewrite ?(strtol10_no_number _ _ _ _ Hs Hnum),
              ?(strtof_no_number _ _ _ _ Hs Hnum); reflexivity. }
  rewrite (processOptions_after_turns k fuel argc m mk
             (Throw (invalid_argument (conversion_name (p_type_of p))))
             (scanned (<[i := fst (visit_match (optarg (scan_data r)) p)]>
                         (parameters mk)) r));
    try assumption; [reflexivity| |discriminate].
  rewrite (owned_match_turn k argc m mk i p Hk Hc Ho Hlen Hp).
  fold r. now rewrite He.
Qed.

End DispatcherFacts.

(** ** The claims on concrete command lines *)

(** C1, the claim fails: for the undeclared option [--bogus] the call ends
    with the very exception the dispatcher throws when the scanner returns a
    character that is not in the short-code index. *)
Lemma bogus_option_error :
  fst (main_call 2 bogus_line) = Thrown (short_option_not_defined (of_char "?")) /\
  ~ (exists e, fst (main_call 2 bogus_line) = Thrown e /\
               forall c, e <> short_option_not_defined c).
Proof.
  split; [reflexivity|].
  intros (e & He & Hne). vm_compute in He. injection He as <-.
  exact (Hne (of_char "?") eq_refl).
Qed.

Lemma undeclared_key_error_witness :
  main_call 1 bogus_line
  = (Thrown (invalid_argument
       "getopt_long returned short option '?' event though it is not defined."),
     scanned parameter
       (next_scan 2 (main_machine bogus_line) (main_machine bogus_line))).
Proof.
  apply (undeclared_key_error 0 1 2 (main_machine bogus_line)
           (main_machine bogus_line)).
  - reflexivity.
  - vm_compute. reflexivity.
  - vm_compute. reflexivity.
  - intros n p Hp.
    destruct n as [|[|[|[|n]]]]; vm_compute in Hp; try discriminate;
      injection Hp as <-; vm_compute; discriminate.
  - lia.
Defined.

(** C2. The option string gets a single colon after the short code of a
    descriptor whose argument is optional, the same text as for a required
    argument, although the long-option table built in the same loop keeps
    the two policies apart. The scanner therefore treats [-l] as taking a
    required argument: [-l] alone ends the call with an exception, where
    the option string with two colons makes the scanner accept it. *)
Theorem optional_argument_single_colon :
  ss_str level_optional = "l:" /\
  ss_str level_required = "l:" /\
  has_arg <$> options level_optional = [optional_argument; 0] /\
  has_arg <$> options level_required = [required_argument; 0] /\
  fst (processOptions 2 2 (Build_machine level_optional ["prog"; "-l"] Glibc.start))
    = Thrown (short_option_not_defined (of_char "?")) /\
  scan_c (getopt_long 2 ["prog"; "-l"] "l::" (options level_optional) 1 Glibc.start)
    = of_char "l".
Proof. repeat split; reflexivity. Qed.

(** C5, the claim fails: "12abc" is not a base-10 integer, yet the call
    returns normally and the int option holds 12. *)
Lemma trailing_text_accepted :
  strict_base10 "12abc" = false /\
  fst (main_call 2 trailing_line) = Returned (NoMoreArgs, 3) /\
  p_current <$> parameters (snd (main_call 2 trailing_line)) !! 1%nat
    = Some (v_int 12).
Proof. repeat split; reflexivity. Qed.

Lemma malformed_number_propagates_witness :
  fst (main_call 1 abc_line) = Thrown (invalid_argument "stoi").
Proof.
  apply (malformed_number_propagates 0 1 3 (main_machine abc_line)
           (main_machine abc_line) 1 start_declared "abc" "" "" "abc").
  - reflexivity.
  - vm_compute. reflexivity.
  - match goal with |- owner ?ps ?c ?li _ =>
      change (owner ps c li (Z.to_nat (to_size_t li))) end.
    apply owner_long. vm_compute. discriminate.
  - vm_compute. discriminate.
  - reflexivity.
  - left. reflexivity.
  - discriminate.
  - reflexivity.
  - repeat split; reflexivity.
  - reflexivity.
  - lia.
Defined.

(** C6. Once the scanner returns -1 the call returns "no more arguments"
    with the scanner's [optind], and the collection as the turns before
    left it. For the command line [prog -e -- residual1 residual2] and the
    table of the demonstration program the index is 3, where "residual1"
    stands, and the enable flag has been seen once. *)
Theorem processOptions_no_more_arguments :
  (forall (FM : FloatModel) (G : Getopt) (k fuel : nat) (argc : Z)
          (m mk : machine),
     after_turns k argc m = Some mk ->
     scan_c (next_scan argc m mk) = -1 ->
     (k < fuel)%nat ->
     processOptions fuel argc m
     = (Returned (NoMoreArgs, optind (scan_data (next_scan argc m mk))),
        scanned (parameters mk) (next_scan argc m mk))) /\
  (forall fuel : nat, (2 <= fuel)%nat ->
     fst (main_call fuel residual_line) = Returned (NoMoreArgs, 3) /\
     argv (snd (main_call fuel residual_line)) !! 3%nat = Some "residual1" /\
     parameters (snd (main_call fuel residual_line)) !! 0%nat = Some enable_seen /\
     p_name enable_seen = "enable" /\
     p_val enable_seen = of_char "e" /\
     p_seen enable_seen = 1).
Proof.
  split.
  - intros FM G k fuel argc m mk. apply exhaustion_returns.
  - intros fuel Hfuel.
    set (m := main_machine residual_line).
    set (mk := scanned (<[0%nat := enable_seen]> parameter) (next_scan 5 m m)).
    assert (after_turns 1 5 m = Some mk) as Hk by reflexivity.
    assert (scan_c (next_scan 5 m mk) = -1) as Hc by reflexivity.
    assert (main_call fuel residual_line
            = (Returned (NoMoreArgs, 3), scanned (parameters mk) (next_scan 5 m mk)))
      as -> by (apply (exhaustion_returns 1 fuel 5 m mk Hk Hc); lia).
    repeat split.
Qed.

Lemma processOptions_no_more_arguments_witness :
  main_call 2 residual_line
  = (Returned (NoMoreArgs, 3),
     Build_machine (<[0%nat := enable_seen]> parameter) residual_line
       (Glibc.Build_data 3 None 63 true (Some EmptyString) Glibc.PERMUTE 3 5 false)).
Proof.
  refine (proj1 processOptions_no_more_arguments text_floats glibc 1%nat 2%nat 5
            (main_machine residual_line)
            (scanned (<[0%nat := enable_seen]> parameter)
               (next_scan 5 (main_machine residual_line)
                  (main_machine residual_line))) _ _ _).
  - reflexivity.
  - vm_compute. reflexivity.
  - lia.
Defined.

Lemma match_updates_owner_witness :
  exists p',
    after_turns 1 3 (main_machine short_start_line)
    = Some (scanned (<[1%nat := p']> parameter)
              (next_scan 3 (main_machine short_start_line)
                 (main_machine short_start_line))) /\
    (forall fuel,
       processOptions (1 + fuel) 3 (main_machine short_start_line)
       = scan_loop fuel 3 "es:p:f:" (options parameter) (small_opts parameter)
           (scanned (<[1%nat := p']> parameter)
              (next_scan 3 (main_machine short_start_line)
                 (main_machine short_start_line)))) /\
    p_seen p' = 1 /\
    p_current p' = v_int 42 /\
    declaration p' = declaration start_declared.
Proof.
  refine (match_updates_owner 0 3 (main_machine short_start_line)
            (main_machine short_start_line) 1 start_declared (v_int 42)
            _ _ _ _ _ _ _).
  - reflexivity.
  - vm_compute. reflexivity.
  - apply owner_short; [vm_compute; reflexivity|].
    split; [reflexivity|].
    intros j Hj. destruct j as [|j]; [vm_compute; discriminate | lia].
  - vm_compute. discriminate.
  - reflexivity.
  - vm_compute. split; [discriminate | reflexivity].
  - reflexivity.
Defined.

Lemma conversion_failure_state_witness :
  exists p',
    main_call 2 enable_abc_line
    = (Thrown (invalid_argument "stoi"),
       Build_machine (<[1%nat := p']> (<[0%nat := enable_seen]> parameter))
         enable_abc_line
         (Glibc.Build_data 4 (Some "abc") 63 true None Glibc.PERMUTE 2 2 false)) /\
    p_seen p' = 1 /\
    p_current p' = v_int 0 /\
    declaration p' = declaration start_declared.
Proof.
  refine (conversion_failure_state 1 2 4 (main_machine enable_abc_line)
            (scanned (<[0%nat := enable_seen]> parameter)
               (next_scan 4 (main_machine enable_abc_line)
                  (main_machine enable_abc_line)))
            1 start_declared (invalid_argument "stoi") _ _ _ _ _ _ _ _).
  - reflexivity.
  - vm_compute. reflexivity.
  - match goal with |- owner ?ps ?c ?li _ =>
      change (owner ps c li (Z.to_nat (to_size_t li))) end.
    apply owner_long. vm_compute. discriminate.
  - vm_compute. discriminate.
  - reflexivity.
  - vm_compute. split; [discriminate | reflexivity].
  - reflexivity.
  - lia.
Defined.

(** Two descriptors with the short code [x]: for [-x] the call returns with
    the match counted and stored in the first one, and the second one as it
    was declared. *)
Example twins_call :
  processOptions 2 2 (Build_machine twins ["prog"; "-x"] Glibc.start)
  = (Returned (NoMoreArgs, 2),
     Build_machine
       [ p_bool (Build_parameter "first" has_no_argument (of_char "x")
                   0 1 false true);
         p_int (new_parameter "second" has_requred_argument (of_char "x")) ]
       ["prog"; "-x"]
       (Glibc.Build_data 2 None 63 true (Some EmptyString) Glibc.PERMUTE
          2 2 false)).
Proof. reflexivity. Qed.

Lemma duplicate_short_code_first_witness :
  exists mk' p',
    after_turns 1 2 (Build_machine twins ["prog"; "-x"] Glibc.start) = Some mk' /\
    (forall fuel,
       processOptions (1 + fuel) 2 (Build_machine twins ["prog"; "-x"] Glibc.start)
       = scan_loop fuel 2 "xx:" (options twins) (small_opts twins) mk') /\
    argv mk' = ["prog"; "-x"] /\
    data mk'
    = Glibc.Build_data 2 None 63 true (Some EmptyString) Glibc.PERMUTE 1 1 false /\
    length (parameters mk') = 2%nat /\
    parameters mk' !! 0%nat = Some p' /\
    p_seen p' = 1 /\
    p_current p' = v_bool true /\
    declaration p'
    = declaration (p_bool (new_parameter "first" has_no_argument (of_char "x"))) /\
    parameters mk' !! 1%nat
    = Some (p_int (new_parameter "second" has_requred_argument (of_char "x"))) /\
    (forall n, n <> 0%nat -> parameters mk' !! n = twins !! n).
Proof.
  refine (duplicate_short_code_first 0 2
            (Build_machine twins ["prog"; "-x"] Glibc.start)
            (Build_machine twins ["prog"; "-x"] Glibc.start) 0 1
            (p_bool (new_parameter "first" has_no_argument (of_char "x")))
            (p_int (new_parameter "second" has_requred_argument (of_char "x")))
            (v_bool true)
            _ _ _ _ _ _ _ _ _ _ _ _).
  - reflexivity.
  - vm_compute. reflexivity.
  - vm_compute. reflexivity.
  - vm_compute. discriminate.
  - reflexivity.
  - reflexivity.
  - reflexivity.
  - reflexivity.
  - intros n p0 Hn. lia.
  - lia.
  - vm_compute. split; [discriminate | reflexivity].
  - reflexivity.
Defined.

(** * Further properties *)

(** ** Printing and reading back *)

Lemma of_char_to_char (z : Z) : 0 <= z < 256 -> of_char (to_char z) = z.
Proof.
  intros Hz. unfold of_char, to_char. rewrite Z.mod_small by lia.
  rewrite N_ascii_embedding by lia. lia.
Qed.

Lemma digit_char_digit (d : Z) :
  0 <= d <= 9 ->
  is_digit (digit_char d) = true /\ digit_value (digit_char d) = d /\
  Ascii.eqb (digit_char d) zero = false.
Proof.
  intros Hd. unfold is_digit, digit_value, digit_char.
  assert (of_char (to_char (48 + d)) = 48 + d) as Hc
    by (apply of_char_to_char; lia).
  rewrite Hc. repeat split;
    [apply andb_true_intro; split; apply Z.leb_le; lia | lia |].
  apply Ascii.eqb_neq. intros Heq.
  rewrite Heq in Hc. change (of_char zero) with 0 in Hc. lia.
Qed.

Lemma digits_le_all_digits (fuel : nat) (n : Z) :
  0 <= n ->
  Forall (fun c => is_digit c = true /\ Ascii.eqb c zero = false)
    (digits_le fuel n).
Proof.
  revert n. induction fuel as [|fuel IH]; intros n Hn; simpl; [constructor|].
  assert (0 <= n mod 10 <= 9) as Hd by (pose proof (Z.mod_pos_bound n 10); lia).
  destruct (digit_char_digit _ Hd) as (H1 & _ & H3).
  constructor; [auto|]. destruct (n <? 10); [constructor|].
  apply IH. apply Z.div_pos; lia.
Qed.

Lemma digits_value_snoc (l : list ascii) (c : ascii) :
  digits_value (l ++ [c]) = 10 * digits_value l + digit_value c.
Proof. unfold digits_value. now rewrite fold_left_app. Qed.

Lemma digits_le_value (fuel : nat) (n : Z) :
  0 <= n < 10 ^ Z.of_nat fuel ->
  digits_value (rev (digits_le fuel n)) = n.
Proof.
  revert n. induction fuel as [|fuel IH]; intros n Hn.
  - change (10 ^ Z.of_nat 0) with 1 in Hn. assert (n = 0) as -> by lia.
    reflexivity.
  - cbn [digits_le].
    assert (0 <= n mod 10 <= 9) as Hd by (pose proof (Z.mod_pos_bound n 10); lia).
    destruct (digit_char_digit _ Hd) as (_ & Hv & _).
    rewrite Nat2Z.inj_succ, Z.pow_succ_r in Hn by lia.
    destruct (n <? 10) eqn:Hlt.
    + apply Z.ltb_lt in Hlt. simpl. unfold digits_value. simpl.
      rewrite Hv. rewrite Z.mod_small; lia.
    + apply Z.ltb_ge in Hlt. cbn [rev]. rewrite digits_value_snoc, Hv, IH.
      * pose proof (Z.div_mod n 10). lia.
      * split; [apply Z.div_pos; lia|].
        apply Z.div_lt_upper_bound; lia.
Qed.

Lemma all_chars_of_list (f : ascii -> bool) (l : list ascii) :
  Forall (fun c => f c = true) l -> all_chars f (string_of_list_ascii l) = true.
Proof.
  induction 1 as [|c l Hc _ IH]; simpl; [reflexivity|]. now rewrite Hc.
Qed.

Lemma c_str_no_nul (s : string) : no_nul s = true -> c_str s = s.
Proof.
  unfold no_nul. induction s as [|c s IH]; simpl; [reflexivity|].
  intros H. apply andb_prop in H as [Hc Hs].
  destruct (Ascii.eqb c zero); [discriminate|]. now rewrite IH.
Qed.

Lemma append_empty (s : string) : s +:+ EmptyString = s.
Proof.
  induction s as [|c s IH]; [reflexivity|].
  change (String c (s +:+ EmptyString) = String c s). now rewrite IH.
Qed.

Lemma print_unsigned_shape (n : Z) :
  0 <= n ->
  all_chars is_digit (print_unsigned n) = true /\
  no_nul (print_unsigned n) = true /\
  print_unsigned n <> EmptyString.
Proof.
  intros Hn. unfold print_unsigned, no_nul.
  pose proof (digits_le_all_digits 10 n Hn) as Hall.
  repeat split.
  - apply all_chars_of_list. apply Forall_rev.
    eapply Forall_impl; [exact Hall|]. now intros c [H _].
  - apply all_chars_of_list. apply Forall_rev.
    eapply Forall_impl; [exact Hall|]. intros c [_ H]. simpl. now rewrite H.
  - cbn [digits_le]. cbn [rev]. intros Heq.
    apply (f_equal list_ascii_of_string) in Heq.
    rewrite list_ascii_of_string_of_list_ascii in Heq.
    now apply app_eq_nil in Heq as [_ [=]].
Qed.

Lemma print_unsigned_read (n : Z) (sg : string) :
  0 <= n < 10 ^ 10 ->
  sg = EmptyString \/ sg = "-" ->
  strtol10 (c_str (sg +:+ print_unsigned n))
  = Some (if String.eqb sg "-" then - n else n).
Proof.
  intros Hn Hsg.
  destruct (print_unsigned_shape n (proj1 Hn)) as (Hdig & Hnul & Hne).
  assert (c_str (sg +:+ print_unsigned n) = sg +:+ print_unsigned n) as Hc.
  { apply c_str_no_nul. destruct Hsg as [-> | ->]; simpl; assumption. }
  assert (splits (sg +:+ print_unsigned n) EmptyString sg
            (print_unsigned n +:+ EmptyString)) as Hs.
  { repeat split.
    - rewrite Hc, append_empty. reflexivity.
    - destruct Hsg as [-> | ->]; reflexivity.
    - intros ->. rewrite append_empty.
      destruct (print_unsigned n) as [|c s]; [congruence|]. simpl in *.
      apply andb_prop in Hdig as [Hd _]. unfold is_sign_char.
      unfold is_digit in Hd. apply andb_prop in Hd as [Hlo Hhi].
      apply Z.leb_le in Hlo, Hhi.
      apply orb_false_intro; [|apply orb_false_intro];
        [destruct (Ascii.is_space c) eqn:E; [|reflexivity]
        |apply Ascii.eqb_neq; intros -> |apply Ascii.eqb_neq; intros ->];
        try (vm_compute in Hlo; congruence).
      exfalso. revert E Hlo Hhi. clear.
      destruct c as [[] [] [] [] [] [] [] []]; vm_compute; intros; congruence. }
  unfold strtol10.
  rewrite (splits_skip_space _ _ _ _ Hs), (splits_read_sign _ _ _ _ Hs).
  rewrite (digit_run_digits (print_unsigned n) EmptyString Hdig eq_refl).
  assert (list_ascii_of_string (print_unsigned n) = rev (digits_le 10 n)) as ->
    by apply list_ascii_of_string_of_list_ascii.
  pose proof (digits_le_value 10 n Hn) as Hv.
  destruct (rev (digits_le 10 n)) as [|a l] eqn:E.
  - cbn [digits_le rev] in E. now apply app_eq_nil in E as [_ [=]].
  - now rewrite Hv.
Qed.

Lemma in_int_range_true (z : Z) : int_range z -> in_int_range z = true.
Proof.
  unfold int_range, in_int_range. intros [Hlo Hhi].
  apply andb_true_intro. split; apply Z.leb_le; assumption.
Qed.

(** X1. What the stream prints for a value converts back to that value:
    every [int], both [bool]s (printed as 1 and 0) and every string without
    a NUL character. *)
Theorem print_then_convert :
  (forall z : Z, int_range z -> converter_int (Some (print_int z)) = Returns z) /\
  (forall b : bool, converter_bool (Some (print_bool b)) = Returns b) /\
  (forall s : string, no_nul s = true -> converter_string (Some s) = Returns s).
Proof.
  repeat split.
  - intros z Hz. unfold converter_int, stoi, print_int.
    assert (10 ^ 10 = 10000000000) as Hpow by reflexivity.
    destruct (z <? 0) eqn:Hneg.
    + apply Z.ltb_lt in Hneg.
      change (String "-" (print_unsigned (- z)))
        with ("-" +:+ print_unsigned (- z)).
      rewrite print_unsigned_read;
        [|unfold int_range, INT_MIN, INT_MAX in Hz; lia | now right].
      simpl String.eqb. rewrite Z.opp_involutive.
      now rewrite in_int_range_true.
    + apply Z.ltb_ge in Hneg.
      change (print_unsigned z) with (EmptyString +:+ print_unsigned z).
      rewrite print_unsigned_read;
        [|unfold int_range, INT_MIN, INT_MAX in Hz; lia | now left].
      simpl String.eqb. now rewrite in_int_range_true.
  - now intros [].
  - intros s Hs. unfold converter_string. now rewrite c_str_no_nul.
Qed.

Lemma print_then_convert_witness :
  converter_int (Some (print_int (-2147483648))) = Returns (-2147483648) /\
  converter_string (Some "out.txt") = Returns "out.txt".
Proof.
  split.
  - apply (proj1 print_then_convert (-2147483648)).
    unfold int_range, INT_MIN, INT_MAX. lia.
  - apply (proj2 (proj2 print_then_convert) "out.txt"). reflexivity.
Defined.

Lemma stoi_leading_number_witness : stoi " -12abc" = Returns (-12).
Proof.
  apply (stoi_leading_number " -12abc" " " "-" "12" "abc");
    [repeat split; try reflexivity; discriminate | reflexivity | discriminate
    | reflexivity].
Defined.

(** ** Counts and values across a call *)

Section Counts.
Context `{FM : FloatModel} `{G : Getopt}.

Lemma total_seen_insert (ps : list p_parameter_t) (i : nat) (p p' : p_parameter_t) :
  ps !! i = Some p ->
  total_seen (<[i := p']> ps) = total_seen ps - p_seen p + p_seen p'.
Proof.
  revert i. induction ps as [|q ps IH]; intros [|i] Hp; simpl in *;
    try discriminate.
  - injection Hp as ->. lia.
  - rewrite (IH i Hp). lia.
Qed.

Lemma total_seen_bound (ps : list p_parameter_t) (i : nat) (p : p_parameter_t) :
  Forall (fun p => 0 <= p_seen p) ps -> ps !! i = Some p ->
  0 <= p_seen p <= total_seen ps.
Proof.
  intros Hall. revert i. induction Hall as [|q ps Hq Hall IH]; intros [|i] Hp;
    simpl in *; try discriminate.
  - injection Hp as ->.
    assert (0 <= total_seen ps)
      by (clear -Hall; induction Hall; simpl; lia).
    lia.
  - specialize (IH i Hp). lia.
Qed.

Lemma is_flag_declaration (p p' : p_parameter_t) :
  declaration p' = declaration p -> is_flag p' = is_flag p.
Proof.
  destruct p as [a|a|a|a], p' as [b|b|b|b]; unfold declaration; simpl;
    intros [= ]; try reflexivity; try discriminate. congruence.
Qed.

(** A flag's conversion cannot fail, and leaves the value true. *)
Lemma visit_match_flag (optarg_ : option string) (p : p_parameter_t) :
  is_flag p = true ->
  snd (visit_match optarg_ p) = None /\
  p_current (fst (visit_match optarg_ p)) = v_bool true.
Proof.
  destruct p as [a|a|a|a]; simpl; try discriminate. intros Hflag.
  unfold visit_match. rewrite on_match_cases, Hflag. simpl. auto.
Qed.

Lemma grown_refl (p : p_parameter_t) : grown p p.
Proof. unfold grown. split; [lia | split; auto]. Qed.

Lemma grown_trans (p1 p2 p3 : p_parameter_t) :
  grown p1 p2 -> grown p2 p3 -> grown p1 p3.
Proof.
  intros (H12 & E12 & F12) (H23 & E23 & F23).
  split; [lia | split; [|auto]].
  intros Heq. assert (p2 = p1) as -> by (apply E12; lia). now apply E23.
Qed.

Lemma grown_visit (optarg_ : option string) (p : p_parameter_t) :
  0 <= p_seen p < INT_MAX ->
  grown p (fst (visit_match optarg_ p)) /\
  p_seen (fst (visit_match optarg_ p)) = p_seen p + 1.
Proof.
  intros Hseen.
  assert (p_seen (fst (visit_match optarg_ p)) = p_seen p + 1) as Hs.
  { rewrite visit_match_seen. apply wrap_int_id.
    unfold int_range, INT_MIN, INT_MAX in *. lia. }
  split; [|exact Hs]. split; [lia | split; [lia|]].
  intros _ Hflag. rewrite (is_flag_declaration p) in Hflag
    by apply visit_match_declaration.
  destruct (visit_match_flag optarg_ p Hflag) as [_ Hcur]. rewrite Hcur, Hs.
  split; [lia | reflexivity].
Qed.

Lemma Forall2_grown_insert (ps : list p_parameter_t) (i : nat)
    (p p' : p_parameter_t) :
  ps !! i = Some p -> grown p p' -> Forall2 grown ps (<[i := p']> ps).
Proof.
  intros Hp Hg. rewrite <- (list_insert_id ps i p Hp) at 1.
  apply Forall2_insert; [|assumption].
  apply Forall_Forall2_diag, Forall_forall. intros q _. apply grown_refl.
Qed.

Lemma Forall2_grown_trans (ps1 ps2 ps3 : list p_parameter_t) :
  Forall2 grown ps1 ps2 -> Forall2 grown ps2 ps3 -> Forall2 grown ps1 ps3.
Proof.
  intros H12. revert ps3. induction H12 as [|p q ps qs Hpq _ IH];
    intros ps3 H23; inversion H23; subst; constructor;
    [eapply grown_trans; eauto | auto].
Qed.

(** What one turn does to the counts, whatever the scanner answers. *)
Lemma iteration_counts (argc : Z) (optstring : string)
    (longopts : list struct_option) (so : list ascii) (m : machine) :
  counts_fit (parameters m) 1 ->
  let res := iteration argc optstring longopts so m in
  Forall2 grown (parameters m) (parameters (snd res)) /\
  Forall (fun p => 0 <= p_seen p) (parameters (snd res)) /\
  total_seen (parameters (snd res)) <= total_seen (parameters m) + 1 /\
  (fst res = Continue ->
   total_seen (parameters (snd res)) = total_seen (parameters m) + 1).
Proof.
  intros [Hnn Hfit] res.
  assert (Forall2 grown (parameters m) (parameters m)) as Hrefl
    by (apply Forall_Forall2_diag, Forall_forall; intros q _; apply grown_refl).
  subst res. unfold iteration.
  repeat match goal with
  | |- context [if ?b then _ else _] => destruct b
  | |- context [match resolve ?a ?b ?c ?d with _ => _ end] => destruct (resolve a b c d)
  | |- context [match ?l !! ?i with _ => _ end] => destruct (l !! i) eqn:Hp
  end; simpl; try (repeat split; solve [assumption | lia | discriminate]).
  match goal with |- context [visit_match ?o p] =>
    pose proof (grown_visit o p) as Hg; destruct (visit_match o p) as [p' e] end.
  simpl in Hg.
  pose proof (total_seen_bound _ _ _ Hnn Hp) as Hb.
  destruct Hg as [Hg Hs]; [change (Z.of_nat 1) with 1 in Hfit; lia|].
  match type of Hp with _ !! ?i = _ => set (i0 := i) in * end.
  assert (Forall (fun p => 0 <= p_seen p) (<[i0 := p']> (parameters m))) as Hnn'.
  { apply Forall_insert; [assumption | lia]. }
  pose proof (total_seen_insert _ _ _ p' Hp) as Ht.
  destruct e as [e|]; simpl;
    (repeat split;
       [eapply Forall2_grown_insert; eassumption | assumption | lia
       | intros; try discriminate; lia]).
Qed.

Lemma counts_fit_step (ps ps' : list p_parameter_t) (fuel : nat) :
  counts_fit ps (S fuel) ->
  Forall (fun p => 0 <= p_seen p) ps' ->
  total_seen ps' <= total_seen ps + 1 ->
  counts_fit ps 1 /\ counts_fit ps' fuel.
Proof.
  unfold counts_fit. rewrite Nat2Z.inj_succ. change (Z.of_nat 1) with 1.
  intros [Hnn Hfit] Hnn' Hle. repeat split; try assumption; lia.
Qed.

Lemma scan_loop_counts (fuel : nat) (argc : Z) (optstring : string)
    (longopts : list struct_option) (so : list ascii) (m : machine) :
  counts_fit (parameters m) fuel ->
  Forall2 grown (parameters m)
    (parameters (snd (scan_loop fuel argc optstring longopts so m))).
Proof.
  revert m. induction fuel as [|fuel IH]; intros m Hfit; simpl.
  - apply Forall_Forall2_diag, Forall_forall. intros q _. apply grown_refl.
  - assert (counts_fit (parameters m) 1) as H1.
    { destruct Hfit as [Hnn Hfit]. split; [assumption|].
      rewrite Nat2Z.inj_succ in Hfit. change (Z.of_nat 1) with 1. lia. }
    destruct (iteration_counts argc optstring longopts so m H1)
      as (Hg & Hnn' & Hle & _).
    destruct (counts_fit_step _ _ _ Hfit Hnn' Hle) as [_ Hfit'].
    destruct (iteration argc optstring longopts so m) as [[r| |e] m'];
      simpl in *; try assumption.
    eapply Forall2_grown_trans; [exact Hg | apply IH, Hfit'].
Qed.

Lemma run_turns_counts (k : nat) (argc : Z) (optstring : string)
    (longopts : list struct_option) (so : list ascii) (m mk : machine) :
  run_turns k argc optstring longopts so m = Some mk ->
  counts_fit (parameters m) k ->
  total_seen (parameters mk) = total_seen (parameters m) + Z.of_nat k.
Proof.
  revert m. induction k as [|k IH]; intros m Hk Hfit.
  - simpl in Hk. injection Hk as <-. simpl. lia.
  - assert (counts_fit (parameters m) 1) as H1.
    { destruct Hfit as [Hnn Hfit]. split; [assumption|].
      rewrite Nat2Z.inj_succ in Hfit. change (Z.of_nat 1) with 1. lia. }
    destruct (iteration_counts argc optstring longopts so m H1)
      as (_ & Hnn' & Hle & Hcont).
    destruct (counts_fit_step _ _ _ Hfit Hnn' Hle) as [_ Hfit'].
    simpl in Hk.
    destruct (iteration argc optstring longopts so m) as [[r| |e] m'];
      simpl in *; try discriminate.
    rewrite (IH m' Hk Hfit'), Hcont by reflexivity.
    rewrite Nat2Z.inj_succ. lia.
Qed.

Lemma Forall2_grown_flags (ps ps' : list p_parameter_t) :
  Forall2 grown ps ps' -> Forall flag_shows_seen ps -> Forall flag_shows_seen ps'.
Proof.
  induction 1 as [|p p' ps ps' (_ & _ & Hf) _ IH]; intros Hflags;
    [constructor|].
  inversion Hflags; subst. constructor; auto.
Qed.

(** X4. The counts add up: after [k] turns that matched an option and
    converted its value, the occurrence counts of the collection sum to [k]
    more than before (as long as the counts stay within an [int]). *)
Theorem matches_counted (k : nat) (argc : Z) (m mk : machine) :
  after_turns k argc m = Some mk ->
  counts_fit (parameters m) k ->
  total_seen (parameters mk) = total_seen (parameters m) + Z.of_nat k.
Proof. apply run_turns_counts. Qed.

(** X5. However a call ends, no occurrence count has gone down, and a
    descriptor whose count is what it was before the call is unchanged
    altogether: a value is only ever written together with a count. *)
Theorem unseen_untouched (fuel : nat) (argc : Z) (m : machine) (i : nat)
    (p p' : p_parameter_t) :
  counts_fit (parameters m) fuel ->
  parameters m !! i = Some p ->
  parameters (snd (processOptions fuel argc m)) !! i = Some p' ->
  p_seen p <= p_seen p' /\ (p_seen p' = p_seen p -> p' = p).
Proof.
  intros Hfit Hp Hp'.
  pose proof (scan_loop_counts fuel argc
                (c_str (ss_str (parameters m))) (options (parameters m))
                (small_opts (parameters m)) m Hfit) as Hall.
  destruct (Forall2_lookup_lr _ _ _ _ _ _ Hall Hp Hp') as (Hle & Heq & _).
  auto.
Qed.

(** X6. A presence flag (a bool descriptor that takes no argument) tells
    whether it was seen: if before a call every flag's value is true exactly
    when its count is positive, as for freshly constructed descriptors, the
    same holds after the call, however it ends. *)
Theorem flags_show_seen (fuel : nat) (argc : Z) (m : machine) :
  counts_fit (parameters m) fuel ->
  Forall flag_shows_seen (parameters m) ->
  Forall flag_shows_seen (parameters (snd (processOptions fuel argc m))).
Proof.
  intros Hfit Hflags.
  pose proof (scan_loop_counts fuel argc
                (c_str (ss_str (parameters m))) (options (parameters m))
                (small_opts (parameters m)) m Hfit) as Hall.
  exact (Forall2_grown_flags _ _ Hall Hflags).
Qed.

(** ** How a call ends *)

Lemma iteration_break_inv (argc : Z) (optstring : string)
    (longopts : list struct_option) (so : list ascii) (m m' : machine)
    (r : options_result_t) :
  iteration argc optstring longopts so m = (Break r, m') ->
  let s := getopt_long argc (argv m) optstring longopts
             (wrap_int (Z.of_nat (length (parameters m)))) (data m) in
  scan_c s = -1 /\ r = (NoMoreArgs, optind (scan_data s)) /\
  m' = scanned (parameters m) s.
Proof.
  unfold iteration. intros H.
  set (s := getopt_long argc (argv m) optstring longopts
              (wrap_int (Z.of_nat (length (parameters m)))) (data m)) in *.
  destruct (scan_c s =? -1) eqn:Hc.
  - apply Z.eqb_eq in Hc. inversion H; subst. auto.
  - destruct (0 <? scan_c s); [|discriminate].
    destruct (resolve _ _ _ _); [|discriminate].
    destruct (_ !! _); [|discriminate].
    destruct (visit_match _ _) as [p' [e|]]; discriminate.
Qed.

Lemma scan_loop_returned (fuel : nat) (argc : Z) (optstring : string)
    (longopts : list struct_option) (so : list ascii) (m : machine)
    (r : options_result_t) :
  fst (scan_loop fuel argc optstring longopts so m) = Returned r ->
  exists k mk,
    (k < fuel)%nat /\
    run_turns k argc optstring longopts so m = Some mk /\
    iteration argc optstring longopts so mk
    = (Break r, snd (scan_loop fuel argc optstring longopts so m)).
Proof.
  revert m. induction fuel as [|fuel IH]; intros m; simpl; [discriminate|].
  destruct (iteration argc optstring longopts so m) as [[r0| |e] m'] eqn:Hit;
    simpl; try discriminate.
  - intros [= ->]. exists 0%nat, m. repeat split; [lia | assumption].
  - intros Hr. destruct (IH m' Hr) as (k & mk & Hlt & Hk & Hbreak).
    exists (S k), mk. repeat split; [lia | | assumption].
    simpl. now rewrite Hit.
Qed.

Lemma processOptions_returned (fuel : nat) (argc : Z) (m : machine)
    (r : options_result_t) :
  fst (processOptions fuel argc m) = Returned r ->
  exists k mk,
    (k < fuel)%nat /\
    after_turns k argc m = Some mk /\
    scan_c (next_scan argc m mk) = -1 /\
    r = (NoMoreArgs, optind (data (snd (processOptions fuel argc m)))) /\
    snd (processOptions fuel argc m)
    = scanned (parameters mk) (next_scan argc m mk).
Proof.
  intros Hr. unfold processOptions in *.
  destruct (scan_loop_returned _ _ _ _ _ _ _ Hr) as (k & mk & Hlt & Hk & Hbreak).
  destruct (after_turns_tables k argc m mk Hk) as (Hlen & _).
  destruct (iteration_break_inv _ _ _ _ _ _ _ Hbreak) as (Hc & -> & Hm').
  exists k, mk. unfold next_scan. cbv zeta in *.
  rewrite Hm'. auto.
Qed.

(** X7. A call returns only in one way: after some turns that each matched
    an option and converted its value, the scanner answered -1. The result
    is then "no more arguments" with the scanner's [optind]; "processing
    paused" is never returned, and the collection is as those turns left
    it. *)
Theorem returned_only_on_exhaustion (fuel : nat) (argc : Z) (m : machine)
    (r : options_result_t) :
  fst (processOptions fuel argc m) = Returned r ->
  exists k mk,
    (k < fuel)%nat /\
    after_turns k argc m = Some mk /\
    scan_c (next_scan argc m mk) = -1 /\
    r = (NoMoreArgs, optind (data (snd (processOptions fuel argc m)))) /\
    snd (processOptions fuel argc m)
    = scanned (parameters mk) (next_scan argc m mk).
Proof. apply processOptions_returned. Qed.

(** X8. A scanner result that is neither -1 nor positive (0 is what
    [getopt_long] returns for an entry whose [val] is 0) ends the call with
    [std::logic_error] about [flag]; no descriptor is touched in that
    turn. *)
Theorem nonpositive_result_error (k fuel : nat) (argc : Z) (m mk : machine) :
  after_turns k argc m = Some mk ->
  scan_c (next_scan argc m mk) <= 0 ->
  scan_c (next_scan argc m mk) <> -1 ->
  (k < fuel)%nat ->
  processOptions fuel argc m
  = (Thrown (logic_error "This implementation should not set 'flag'."),
     scanned (parameters mk) (next_scan argc m mk)).
Proof.
  intros Hk Hle Hne Hlt.
  apply (processOptions_after_turns k fuel argc m mk
           (Throw (logic_error flag_message))); try assumption; [|discriminate].
  unfold iteration, next_scan in *. cbv zeta in *.
  match goal with |- context [scan_c ?s =? -1] => set (r := s) in * end.
  assert ((scan_c r =? -1) = false) as -> by (apply Z.eqb_neq; assumption).
  assert ((0 <? scan_c r) = false) as -> by (apply Z.ltb_ge; assumption).
  reflexivity.
Qed.

(** X9. One turn of the loop changes at most one descriptor, whatever the
    scanner answers and however the turn ends. *)
Theorem turn_touches_one (argc : Z) (optstring : string)
    (longopts : list struct_option) (so : list ascii) (m : machine) :
  exists i : nat, forall n : nat, n <> i ->
    parameters (snd (iteration argc optstring longopts so m)) !! n
    = parameters m !! n.
Proof.
  unfold iteration.
  repeat match goal with
  | |- context [if ?b then _ else _] => destruct b
  | |- context [match resolve ?a ?b ?c ?d with _ => _ end] => destruct (resolve a b c d)
  | |- context [match ?l !! ?i with _ => _ end] => destruct (l !! i) eqn:Hp
  end; simpl; try (exists 0%nat; reflexivity).
  match type of Hp with _ !! ?i = _ => exists i end.
  intros n Hn.
  destruct (visit_match _ p) as [p' [e|]]; simpl;
    now rewrite list_lookup_insert_ne by congruence.
Qed.

End Counts.

(** ** The tables built for the scanner *)

Section Tables.
Context `{FM : FloatModel}.

Lemma ss_str_app (ps qs : list p_parameter_t) :
  ss_str (ps ++ qs) = ss_str ps +:+ ss_str qs.
Proof.
  induction ps as [|p ps IH]; [reflexivity|].
  cbn [app ss_str]. rewrite IH. unfold short_entry.
  now destruct (is_no_argument (p_has_arg p)).
Qed.

Lemma c_str_app_nul (a b : string) :
  c_str (a +:+ String zero b) = c_str a.
Proof.
  induction a as [|c a IH]; [reflexivity|].
  change (c_str (String c (a +:+ String zero b)) = c_str (String c a)).
  cbn [c_str]. now rewrite IH.
Qed.

(** X10. A descriptor whose [l_val] has a zero low byte (0, or 256 as is
    usual for an option without a short form) ends the option string the
    scanner is given: the short codes of that descriptor and of all the
    descriptors after it are not in it. *)
Theorem nul_code_ends_option_string (ps : list p_parameter_t) (i : nat)
    (p : p_parameter_t) :
  ps !! i = Some p ->
  to_char (p_val p) = zero ->
  c_str (ss_str ps) = c_str (ss_str (take i ps)).
Proof.
  intros Hp Hnul. rewrite <- (take_drop_middle ps i p Hp) at 1.
  rewrite ss_str_app. cbn [ss_str]. unfold short_entry. rewrite Hnul.
  apply c_str_app_nul.
Qed.

End Tables.

(** ** The function [main] *)

Section MainFacts.
Context `{FP : FloatPrint} `{G : Getopt}.

Lemma append_assoc (a b c : string) : (a +:+ b) +:+ c = a +:+ b +:+ c.
Proof.
  induction a as [|x a IH]; [reflexivity|].
  change (String x ((a +:+ b) +:+ c) = String x (a +:+ b +:+ c)). now rewrite IH.
Qed.

Lemma residual_arguments_list (n : nat) (argv_ : list string) (i : Z) :
  0 <= i ->
  (Z.to_nat i + n <= length argv_)%nat ->
  residual_arguments n argv_ i
  = Returns (concat_strings (quoted <$> take n (drop (Z.to_nat i) argv_))).
Proof.
  revert i. induction n as [|n IH]; intros i Hi Hlen; [reflexivity|].
  cbn [residual_arguments].
  assert ((i <? 0) = false) as -> by (apply Z.ltb_ge; lia).
  destruct (argv_ !! Z.to_nat i) as [a|] eqn:Ha.
  - rewrite IH by lia.
    replace (Z.to_nat (i + 1)) with (S (Z.to_nat i)) by lia.
    rewrite (drop_S _ _ _ Ha). cbn [take fmap list_fmap concat_strings].
    f_equal. unfold quoted. now rewrite 2!append_assoc.
  - apply lookup_ge_None in Ha. lia.
Qed.

(** X12. [main] makes one pass. When the call of [processOptions] returns,
    [main] writes the greeting, one line for each descriptor as the call
    left it, and the residual arguments, which are the elements of the
    argument vector (as the scanner reordered it) from the returned index
    up to [argc], each in quotes; then it exits with 0 without calling
    [processOptions] again. When the call throws, nothing catches the
    exception and only the greeting has been written. *)
Theorem main_single_pass (passes fuel : nat) (ps : list p_parameter_t)
    (argc : Z) (argv_ : list string) (d : getopt_data) :
  let call := processOptions fuel argc (Build_machine ps argv_ d) in
  (forall r, fst call = Returned r ->
     0 <= snd r ->
     argc <= Z.of_nat (length (argv (snd call))) ->
     main (S passes) fuel ps argc argv_ d
     = (Exits 0,
        ("Hello, World!" +:+ endl)
          +:+ print_descriptors (parameters (snd call))
          +:+ String "010" "Residual arguments:"
          +:+ concat_strings
                (quoted <$> drop (Z.to_nat (snd r))
                              (take (Z.to_nat argc) (argv (snd call))))
          +:+ endl)) /\
  (forall e, fst call = Thrown e ->
     main (S passes) fuel ps argc argv_ d = (Uncaught e, "Hello, World!" +:+ endl)).
Proof.
  intros call. split.
  - intros r Hr Hsecond Hargc.
    destruct (processOptions_returned _ _ _ _ Hr)
      as (_ & _ & _ & _ & _ & Hshape & _).
    unfold main. cbn [main_loop]. fold call. fold call in Hshape.
    destruct call as [c m']. cbn [fst snd] in *.
    subst c r. cbn [fst snd] in *.
    set (i := optind (data m')) in *.
    destruct (decide (i <= argc)) as [Hle|Hgt].
    + rewrite residual_arguments_list by lia.
      rewrite take_drop_commute.
      replace (Z.to_nat i + Z.to_nat (argc - i))%nat with (Z.to_nat argc) by lia.
      now rewrite !append_assoc.
    + replace (Z.to_nat (argc - i)) with 0%nat by lia. cbn [residual_arguments].
      rewrite drop_ge by (rewrite length_take; lia).
      now rewrite !append_assoc.
  - intros e He. unfold main. cbn [main_loop]. fold call.
    destruct call as [c m']. simpl in He. now subst c.
Qed.

End MainFacts.

(** ** The loop ends *)

(** Reading the fields of an updated scanner state. *)
Ltac glibc_simpl :=
  unfold Glibc.set_optind, Glibc.set_optarg, Glibc.set_optopt,
    Glibc.set_nextchar, Glibc.set_first_nonopt, Glibc.set_last_nonopt,
    pending in *;
  cbn [Glibc.optind Glibc.optarg Glibc.optopt Glibc.initialized
       Glibc.nextchar Glibc.order Glibc.first_nonopt Glibc.last_nonopt
       Glibc.posixly_correct scan_c scan_data scan_argv scan_longindex
       String.length fst snd] in *.

(** Comparisons on [Z] found true or false, as propositions. *)
Ltac bool_hyps :=
  repeat match goal with
  | H : (_ =? _) = true |- _ => apply Z.eqb_eq in H
  | H : (_ =? _) = false |- _ => apply Z.eqb_neq in H
  | H : (_ <? _) = true |- _ => apply Z.ltb_lt in H
  | H : (_ <? _) = false |- _ => apply Z.ltb_ge in H
  end.

(** One goal for each path through the code in the goal. *)
Ltac split_cases :=
  repeat match goal with
  | |- context [if ?b then _ else _] => destruct b eqn:?
  | |- context [match ?x with _ => _ end] => destruct x eqn:?
  end.

(** A long option consumes its element, and its argument when that is the
    next element. *)
Lemma process_long_option_progress (argc : Z) (argv : list string)
    (optstring : string) (longopts : list struct_option) (longind : Z)
    (nc : string) (d : Glibc.getopt_data) :
  Glibc.optind d < argc ->
  let r := Glibc.process_long_option argc argv optstring longopts longind nc d in
  Glibc.optind d < Glibc.optind (scan_data r) <= argc /\
  pending (scan_data r) = 0%nat /\
  Glibc.initialized (scan_data r) = Glibc.initialized d.
Proof.
  intros Hlt r. subst r. unfold Glibc.process_long_option.
  split_cases; glibc_simpl; bool_hyps; repeat split; try lia; try reflexivity.
Qed.

(** A short option either ends its element, or leaves the rest of it to
    be read and stays on it. *)
Lemma short_option_progress (argc : Z) (argv : list string)
    (optstring : string) (longopts : list struct_option) (longind : Z)
    (c : ascii) (rest : string) (d : Glibc.getopt_data) :
  Glibc.optind d < argc ->
  let r := Glibc.short_option argc argv optstring longopts longind
             (String c rest) d in
  Glibc.initialized (scan_data r) = Glibc.initialized d /\
  ((Glibc.optind d < Glibc.optind (scan_data r) <= argc /\
    pending (scan_data r) = 0%nat) \/
   (Glibc.optind (scan_data r) = Glibc.optind d /\
    pending (scan_data r) = String.length rest /\
    (0 < String.length rest)%nat)).
Proof.
  intros Hlt r. subst r. unfold Glibc.short_option.
  destruct rest as [|c' rest'].
  - split_cases;
      try match goal with
      | |- context [Glibc.process_long_option ?a ?b ?c ?d ?e ?f ?g] =>
          let H := fresh in
          pose proof (process_long_option_progress a b c d e f g) as H;
          cbv zeta in H; glibc_simpl; bool_hyps;
          destruct H as (? & ? & ?); [lia|]
      end;
      glibc_simpl; bool_hyps; (split; [try reflexivity; try congruence|]);
      try (left; split; [lia | try reflexivity; try assumption]).
  - split_cases;
      try match goal with
      | |- context [Glibc.process_long_option ?a ?b ?c ?d ?e ?f ?g] =>
          let H := fresh in
          pose proof (process_long_option_progress a b c d e f g) as H;
          cbv zeta in H; glibc_simpl; bool_hyps;
          destruct H as (? & ? & ?); [lia|]
      end;
      glibc_simpl; bool_hyps; (split; [try reflexivity; try congruence|]);
      try (left; split; [lia | try reflexivity; try assumption]);
      try (right; repeat split; lia).
Qed.

(** Skipping non-options moves forward, by at most the elements given. *)
Lemma skip_nonoptions_bounds (l : list string) (i : Z) :
  i <= Glibc.skip_nonoptions l i <= i + Z.of_nat (length l).
Proof.
  revert i. induction l as [|s l IH]; intros i; simpl; [lia|].
  destruct (Glibc.nonoption_p s); [|lia].
  specialize (IH (i + 1)). lia.
Qed.

Lemma skip_window (argv : list string) (argc i : Z) :
  0 <= i <= argc ->
  i <= Glibc.skip_nonoptions
         (drop (Z.to_nat i) (take (Z.to_nat argc) argv)) i <= argc.
Proof.
  intros Hi.
  pose proof (skip_nonoptions_bounds
                (drop (Z.to_nat i) (take (Z.to_nat argc) argv)) i) as Hb.
  rewrite length_drop, length_take in Hb. lia.
Qed.

(** An option element has a character after its dash. *)
Lemma nonoption_p_false (s : string) :
  Glibc.nonoption_p s = false -> exists c r, Glibc.tail s = String c r.
Proof.
  destruct s as [|a [|c r]]; simpl; try discriminate.
  - destruct a as [[] [] [] [] [] [] [] []]; discriminate.
  - intros _. eauto.
Qed.

(** Moving to the next element: the scan ends, or an element is consumed,
    or the scanner enters an option element that exists. *)
Lemma advance_progress (argc : Z) (argv : list string)
    (optstring : string) (longopts : list struct_option) (longind : Z)
    (d : Glibc.getopt_data) :
  1 <= Glibc.optind d <= argc ->
  pending d = 0%nat ->
  match Glibc.advance argc argv optstring longopts longind d with
  | inl r =>
      scan_c r = -1 \/
      (Glibc.optind d < Glibc.optind (scan_data r) <= argc /\
       pending (scan_data r) = 0%nat /\
       Glibc.initialized (scan_data r) = Glibc.initialized d)
  | inr (_, nc, d') =>
      (exists c rest, nc = String c rest) /\
      Glibc.optind d <= Glibc.optind d' < argc /\
      Glibc.initialized d' = Glibc.initialized d
  end.
Proof.
  intros Hind Hpend.
  unfold Glibc.advance.
  (* the two clamps *)
  match goal with
  | |- context [if Glibc.optind d <? Glibc.last_nonopt d then ?a else ?b] =>
      set (d1 := if Glibc.optind d <? Glibc.last_nonopt d then a else b)
  end.
  assert (Glibc.optind d1 = Glibc.optind d /\ pending d1 = 0%nat /\
          Glibc.initialized d1 = Glibc.initialized d) as (Ho1 & Hp1 & Hi1).
  { subst d1. destruct (_ <? _); glibc_simpl; auto. }
  clearbody d1.
  match goal with
  | |- context [if Glibc.optind d1 <? Glibc.first_nonopt d1 then ?a else ?b] =>
      set (d2 := if Glibc.optind d1 <? Glibc.first_nonopt d1 then a else b)
  end.
  assert (Glibc.optind d2 = Glibc.optind d /\ pending d2 = 0%nat /\
          Glibc.initialized d2 = Glibc.initialized d) as (Ho2 & Hp2 & Hi2).
  { subst d2. destruct (_ <? _); glibc_simpl; auto. }
  clearbody d2. clear d1 Ho1 Hp1 Hi1.
  (* permutation and the skipping of non-options *)
  match goal with
  | |- context [match Glibc.order d2 with
                | Glibc.PERMUTE => ?x
                | Glibc.REQUIRE_ORDER => ?y
                | Glibc.RETURN_IN_ORDER => ?z
                end] =>
      set (pB := match Glibc.order d2 with
                 | Glibc.PERMUTE => x
                 | Glibc.REQUIRE_ORDER => y
                 | Glibc.RETURN_IN_ORDER => z
                 end)
  end.
  assert (Glibc.optind d <= Glibc.optind (snd pB) <= argc /\
          pending (snd pB) = 0%nat /\
          Glibc.initialized (snd pB) = Glibc.initialized d) as (HoB & HpB & HiB).
  { subst pB.
    destruct (Glibc.order d2);
      [simpl; repeat split; (lia || auto) | | simpl; repeat split; (lia || auto)].
    unfold Glibc.exchange.
    destruct (negb _ && negb _); [|destruct (negb _)]; cbn beta iota zeta;
      glibc_simpl;
      match goal with
      | |- context [Glibc.skip_nonoptions (drop (Z.to_nat ?i) (take _ ?l)) _] =>
          pose proof (skip_window l argc i)
      end;
      (repeat split; [lia | lia | assumption | assumption]). }
  destruct pB as [argvB dB]. cbn [fst snd] in HoB, HpB, HiB.
  clear d2 Ho2 Hp2 Hi2.
  (* the element "--" *)
  match goal with
  | |- context [if negb (Glibc.optind dB =? argc) && ?c then ?x else ?y] =>
      set (pC := if negb (Glibc.optind dB =? argc) && c then x else y)
  end.
  assert (Glibc.optind d <= Glibc.optind (snd pC) <= argc /\
          pending (snd pC) = 0%nat /\
          Glibc.initialized (snd pC) = Glibc.initialized d) as (HoC & HpC & HiC).
  { subst pC. destruct (negb _ && _); [|simpl; auto].
    unfold Glibc.exchange.
    destruct (negb _ && negb _); [|destruct (_ =? _)]; cbn beta iota zeta;
      glibc_simpl; (repeat split; [lia | lia | assumption | assumption]). }
  destruct pC as [argvC dC]. cbn [fst snd] in HoC, HpC, HiC.
  clear dB HoB HpB HiB.
  (* the decision *)
  destruct (Glibc.optind dC =? argc) eqn:Hend; [now left|].
  apply Z.eqb_neq in Hend.
  destruct (Glibc.nonoption_p _) eqn:Hnon.
  - destruct (Glibc.order dC); [now left | |];
      right; glibc_simpl; (repeat split; [lia | lia | assumption | assumption]).
  - destruct (nonoption_p_false _ Hnon) as (c & rest & Htail).
    destruct (Glibc.head_is _ _).
    + right.
      match goal with
      | |- context [Glibc.process_long_option ?a ?b ?c ?d ?e ?f ?g] =>
          pose proof (process_long_option_progress a b c d e f g) as Hplo
      end.
      cbv zeta in Hplo. glibc_simpl.
      destruct Hplo as (? & ? & ?); [lia|]. repeat split; (lia || congruence).
    + rewrite Htail. glibc_simpl. repeat split; (eauto || lia).
Qed.

(** Every call of the scanner that does not end the scan brings it closer
    to the end of the command line. *)
Lemma getopt_long_progress (argc : Z) (argv : list string)
    (optstring : string) (longopts : list struct_option) (longind : Z)
    (d : Glibc.getopt_data) :
  scanning argc d ->
  let r := Glibc.getopt_long argc argv optstring longopts longind d in
  scan_c r = -1 \/ (scanning argc (scan_data r) /\ closer argc d (scan_data r)).
Proof.
  intros [Hind Hmid] r. subst r. unfold Glibc.getopt_long.
  assert ((argc <? 1) = false) as -> by (apply Z.ltb_ge; lia).
  match goal with
  | |- context [if (?a || ?b) then ?x else ?y] =>
      set (pI := if (a || b) then x else y)
  end.
  assert (Glibc.optind (snd pI) = Glibc.optind d /\
          Glibc.initialized (snd pI) = true /\
          (if Glibc.initialized d
           then Glibc.nextchar (snd pI) = Glibc.nextchar d
           else Glibc.nextchar (snd pI) = None)) as (HoI & HiI & HnI).
  { subst pI. unfold Glibc.initialize. glibc_simpl.
    assert ((Glibc.optind d =? 0) = false) as -> by (apply Z.eqb_neq; lia).
    destruct (Glibc.initialized d); cbn [negb orb].
    - destruct (_ || _); glibc_simpl; auto.
    - repeat destruct (Glibc.head_is _ _); try destruct (Glibc.posixly_correct d);
        glibc_simpl; auto. }
  destruct pI as [os1 d1]. cbn [fst snd] in HoI, HiI, HnI.
  assert (forall s : scan Glibc.getopt_data,
            between d = true ->
            Glibc.optind d < Glibc.optind (scan_data s) <= argc ->
            pending (scan_data s) = 0%nat ->
            Glibc.initialized (scan_data s) = true ->
            scanning argc (scan_data s) /\ closer argc d (scan_data s)) as Hup.
  { intros s Hf Ho Hp Hi. split.
    - split; [lia|]. rewrite Hp. lia.
    - left. unfold rank, between. rewrite Hp, Hi. fold (between d). rewrite Hf.
      simpl. lia. }
  assert (forall (av : list string) (c : ascii) (rest : string)
                 (d' : Glibc.getopt_data),
            Glibc.optind d <= Glibc.optind d' < argc ->
            Glibc.initialized d' = true ->
            (between d = true \/
             (between d = false /\ Glibc.optind d' = Glibc.optind d /\
              pending d = S (String.length rest))) ->
            let s := Glibc.short_option argc av os1 longopts longind
                       (String c rest) d' in
            scanning argc (scan_data s) /\ closer argc d (scan_data s)) as Hshort.
  { intros av c rest d' Ho Hi Hd s.
    destruct (short_option_progress argc av os1 longopts longind c rest d')
      as (Hi' & Hcase); [lia|]. fold s in Hi', Hcase.
    rewrite Hi in Hi'.
    destruct Hcase as [(Ho' & Hp') | (Ho' & Hp' & Hpos)].
    - split; [split; [lia | rewrite Hp'; lia]|].
      left. unfold rank, between at 1. rewrite Hp', Hi'. simpl.
      destruct (between d); lia.
    - split; [split; [lia | intros; lia]|].
      assert (between (scan_data s) = false) as Hf'.
      { unfold between. rewrite Hi', Hp'. simpl.
        destruct (String.length rest); [lia | reflexivity]. }
      destruct Hd as [Hf | (Hf & Heq & Hpd)].
      + left. unfold rank. rewrite Hf', Hf. lia.
      + right. unfold rank. rewrite Hf', Hf, Ho', Heq. split; lia. }
  assert (Glibc.initialized d = true -> Glibc.nextchar d1 = Glibc.nextchar d)
    as Hn1 by (intros E; now rewrite E in HnI).
  assert (Glibc.initialized d = false -> Glibc.nextchar d1 = None)
    as Hn2 by (intros E; now rewrite E in HnI).
  clear HnI.
  assert (pending d1 = 0%nat -> between d = true) as Hbetween.
  { unfold between, pending. intros Hp.
    destruct (Glibc.initialized d) eqn:Hid; [|reflexivity].
    rewrite <- (Hn1 eq_refl), Hp. reflexivity. }
  destruct (Glibc.nextchar d1) as [[|c rest]|] eqn:Hnc.
  1, 3:
    assert (pending d1 = 0%nat) as Hp1 by (unfold pending; now rewrite Hnc);
    pose proof (advance_progress argc argv os1 longopts longind d1) as Hadv;
    destruct (Glibc.advance argc argv os1 longopts longind d1)
      as [s | [[av nc] d']];
    [ destruct Hadv as [Hend | (Ho & Hp & Hi)];
        [lia | assumption | now left
        | right; apply Hup; [auto | lia | assumption | congruence] ]
    | destruct Hadv as ((c & rest & ->) & Ho & Hi);
        [lia | assumption |];
        right; apply Hshort; [lia | congruence | left; auto] ].
  destruct (Glibc.initialized d) eqn:Hid; [|discriminate (Hn2 eq_refl)].
  specialize (Hn1 eq_refl). symmetry in Hn1.
  right. apply Hshort; [| assumption |].
  - specialize (Hmid eq_refl).
    unfold pending in Hmid. rewrite Hn1 in Hmid. simpl in Hmid. lia.
  - right. unfold between, pending. rewrite Hid, Hn1.
    simpl. auto.
Qed.

Section Ends.
Context `{FM : FloatModel}.

(** A turn of the loop leaves the scanner as [getopt_long] left it,
    whatever the turn does with the descriptors. *)
Lemma iteration_data (argc : Z) (optstring : string)
    (longopts : list struct_option) (so : list ascii) (m : machine) :
  data (snd (iteration argc optstring longopts so m))
  = scan_data (getopt_long argc (argv m) optstring longopts
                 (wrap_int (Z.of_nat (length (parameters m)))) (data m)).
Proof.
  unfold iteration.
  repeat match goal with
  | |- context [if ?b then _ else _] => destruct b
  | |- context [match resolve ?a ?b ?c ?d with _ => _ end] => destruct (resolve a b c d)
  | |- context [match ?l !! ?i with _ => _ end] => destruct (l !! i)
  end; try reflexivity.
  destruct (visit_match _ _) as [p' [e|]]; reflexivity.
Qed.

(** The loop ends from every state the scanner can be called in. *)
Lemma scan_loop_ends (argc : Z) (optstring : string)
    (longopts : list struct_option) (so : list ascii) (a b : nat) :
  forall m : machine,
    rank argc (data m) = a -> pending (data m) = b ->
    scanning argc (data m) ->
    exists fuel,
      fst (scan_loop fuel argc optstring longopts so m) <> Unfinished.
Proof.
  revert b. induction a as [a IHa] using lt_wf_ind.
  induction b as [b IHb] using lt_wf_ind. intros m Ha Hb Hscan.
  pose proof (getopt_long_progress argc (argv m) optstring longopts
                (wrap_int (Z.of_nat (length (parameters m)))) (data m) Hscan)
    as Hprog. cbv zeta in Hprog.
  pose proof (iteration_data argc optstring longopts so m) as Hdata.
  destruct (iteration argc optstring longopts so m) as [[r| |e] m'] eqn:Hit;
    try (exists 1%nat; simpl; rewrite Hit; discriminate).
  simpl in Hdata. change (@getopt_long glibc) with Glibc.getopt_long in Hdata.
  destruct Hprog as [Hend | [Hscan' Hcloser]].
  - exists 1%nat. simpl.
    rewrite iteration_break by exact Hend. discriminate.
  - rewrite <- Hdata in Hscan', Hcloser.
    assert (exists fuel,
              fst (scan_loop fuel argc optstring longopts so m') <> Unfinished)
      as [fuel Hfuel].
    { destruct Hcloser as [Hlt | [Heq Hlt]].
      - apply (IHa (rank argc (data m')) ltac:(lia) (pending (data m')));
          auto.
      - apply (IHb (pending (data m')) ltac:(lia)); auto. congruence. }
    exists (S fuel). simpl. now rewrite Hit.
Qed.

(** X13. With glibc's scanner, a call of [processOptions] always comes to an
    end: on an empty command line, and from every scanner state whose
    [optind] lies inside the command line (the state of a first call among
    them), some number of turns of the [while (true)] loop is enough for
    the call to return or to throw. *)
Theorem processOptions_ends (ps : list p_parameter_t) (argc : Z)
    (argv_ : list string) (d : Glibc.getopt_data) :
  argc < 1 \/ scanning argc d ->
  exists fuel,
    fst (processOptions fuel argc (Build_machine ps argv_ d)) <> Unfinished.
Proof.
  intros [Hargc | Hscan].
  - exists 1%nat. unfold processOptions. simpl.
    rewrite iteration_break; [discriminate|].
    simpl. unfold Glibc.getopt_long.
    assert ((argc <? 1) = true) as -> by (apply Z.ltb_lt; lia). reflexivity.
  - unfold processOptions. eapply scan_loop_ends; eauto.
Qed.
End Ends.

(** ** The further properties on concrete command lines *)

Lemma parameter_counts_fit (fuel : nat) :
  (fuel <= 1000)%nat -> counts_fit parameter fuel.
Proof.
  intros Hfuel. split.
  - unfold parameter.
    repeat (apply List.Forall_cons || apply List.Forall_nil); simpl; lia.
  - unfold INT_MAX. simpl. lia.
Qed.

Lemma parameter_flags : Forall flag_shows_seen parameter.
Proof.
  unfold parameter.
  repeat (apply List.Forall_cons || apply List.Forall_nil);
    intros Hflag; try discriminate.
  simpl. split; [discriminate | lia].
Qed.

Lemma matches_counted_witness :
  total_seen
    (parameters
       (Build_machine
          (<[0%nat := p_bool (Build_parameter "enable" has_no_argument
                                (of_char "e") 0 2 false true)]> parameter)
          ["prog"; "-e"; "-e"]
          (Glibc.Build_data 3 None 63 true (Some EmptyString) Glibc.PERMUTE
             2 2 false)))
  = total_seen (parameters (main_machine ["prog"; "-e"; "-e"])) + Z.of_nat 2.
Proof.
  refine (matches_counted 2 3 (main_machine ["prog"; "-e"; "-e"]) _ _ _).
  - reflexivity.
  - apply parameter_counts_fit. lia.
Defined.

Lemma unseen_untouched_witness :
  p_seen start_declared <= p_seen start_declared /\
  (p_seen start_declared = p_seen start_declared -> start_declared = start_declared).
Proof.
  refine (unseen_untouched 2 5 (main_machine residual_line) 1
            start_declared start_declared _ _ _).
  - apply parameter_counts_fit. lia.
  - reflexivity.
  - reflexivity.
Defined.

Lemma flags_show_seen_witness :
  Forall flag_shows_seen (parameters (snd (main_call 2 residual_line))).
Proof.
  refine (flags_show_seen 2 5 (main_machine residual_line) _ _).
  - apply parameter_counts_fit. lia.
  - exact parameter_flags.
Defined.

Lemma returned_only_on_exhaustion_witness :
  exists k mk,
    (k < 2)%nat /\
    after_turns k 5 (main_machine residual_line) = Some mk /\
    scan_c (next_scan 5 (main_machine residual_line) mk) = -1 /\
    (NoMoreArgs, 3) = (NoMoreArgs, optind (data (snd (main_call 2 residual_line)))) /\
    snd (main_call 2 residual_line)
    = scanned (parameters mk) (next_scan 5 (main_machine residual_line) mk).
Proof.
  refine (returned_only_on_exhaustion 2 5 (main_machine residual_line)
            (NoMoreArgs, 3) _).
  reflexivity.
Defined.

Lemma nonpositive_result_error_witness :
  processOptions 1 2
    (Build_machine [p_bool (new_parameter "zero" has_no_argument 0)]
       ["prog"; "--zero"] Glibc.start)
  = (Thrown (logic_error "This implementation should not set 'flag'."),
     Build_machine [p_bool (new_parameter "zero" has_no_argument 0)]
       ["prog"; "--zero"]
       (Glibc.Build_data 2 None 63 true None Glibc.PERMUTE 1 1 false)).
Proof.
  refine (nonpositive_result_error 0 1 2
            (Build_machine [p_bool (new_parameter "zero" has_no_argument 0)]
               ["prog"; "--zero"] Glibc.start)
            (Build_machine [p_bool (new_parameter "zero" has_no_argument 0)]
               ["prog"; "--zero"] Glibc.start) _ _ _ _).
  - reflexivity.
  - vm_compute. discriminate.
  - vm_compute. discriminate.
  - lia.
Defined.

Lemma nul_code_ends_option_string_witness :
  c_str (ss_str [ p_bool (new_parameter "verbose" has_no_argument 256);
                  p_int (new_parameter "start" has_requred_argument (of_char "s")) ])
  = EmptyString.
Proof.
  refine (nul_code_ends_option_string _ 0
            (p_bool (new_parameter "verbose" has_no_argument 256)) _ _);
    reflexivity.
Defined.

Lemma main_single_pass_witness :
  main 1 2 parameter 5 residual_line Glibc.start
  = (Exits 0,
     ("Hello, World!" +:+ endl)
       +:+ print_descriptors (<[0%nat := enable_seen]> parameter)
       +:+ String "010" "Residual arguments:"
       +:+ concat_strings [quoted "residual1"; quoted "residual2"]
       +:+ endl).
Proof.
  refine (proj1 (main_single_pass 0 2 parameter 5 residual_line Glibc.start)
            (NoMoreArgs, 3) _ _ _).
  - reflexivity.
  - simpl. lia.
  - vm_compute. discriminate.
Defined.

Lemma processOptions_ends_witness :
  exists fuel,
    fst (processOptions fuel 5 (Build_machine parameter residual_line Glibc.start))
    <> Unfinished.
Proof.
  refine (processOptions_ends parameter 5 residual_line Glibc.start _).
  right. split.
  - simpl. lia.
  - discriminate.
Defined.
